(** * CICD Monitor front end: store reducer, duration ticker and transport

    A shallow embedding of
      - [frontend/src/lib/types.ts]            (the data model),
      - [frontend/src/stores/monitorStore.ts]  (the SolidJS store and its
        message handler, the duration updater, [resetMonitor]),
      - [frontend/src/lib/websocket.ts]        (the reconnecting transport),
    followed by the properties of the specification that concern them.

    JavaScript values are modelled as follows: a [string | null] is an
    [option string], a [number] holding an integer is a [Z], an array is a
    [list], an optional field of a message is an [option].  Objects that the
    module keeps at top level and mutates live in a heap indexed by object
    identity, so that two names bound to one object are one heap cell.

    The store is a solid-js/store.  Three facts about that library shape the
    embedding, each recalled where it is used:
      - [createStore(init)] does not copy [init]: the object passed in is the
        object the store reads and writes;
      - [setStore(produce(fn))] runs [fn] on a proxy of that object whose
        assignments are applied to the object one by one, as they are made,
        so that a read of [store] inside [fn] sees the writes made so far;
      - [setStore(value)] with an object assigns each key of [value] to the
        same key of the store's object. *)

From Stdlib Require Import ZArith Lia.
From stdpp Require Import base gmap strings list pretty.

Open Scope Z_scope.

(** ** lib/types.ts *)

(** [metadata: Record<string, unknown>]: opaque to the store, carried along. *)
#[local] Unset Elimination Schemes.
Inductive JValue :=
| JNull
| JBool (b : bool)
| JNumber (n : Z)
| JString (s : string)
| JArray (items : list JValue)
| JObject (fields : list (string * JValue)).
#[local] Set Elimination Schemes.

Module Event.
Record t := {
  timestamp : string;
  agent : string;
  action : string;
  workflow : option string;
  parent : option string;
  metadata : list (string * JValue)
}.
End Event.

Module MonitorState.
Record t := {
  active_agent : option string;
  active_workflow : option string;
  started_at : option string;
  event_count : Z
}.
End MonitorState.

Module WebSocketMessage.
Record t := {
  type : string;
  events : option (list Event.t);
  state : option MonitorState.t;
  event : option Event.t;
  message : option string
}.
End WebSocketMessage.

(** ** stores/monitorStore.ts *)

Module MonitorStore.
Record t := {
  events : list Event.t;
  state : MonitorState.t;
  connected : bool
}.
End MonitorStore.

(** Object identities.  The events array and the state object of a
    [MonitorStore] object are only ever reached through that object, so they
    are kept inline in its heap cell. *)
Definition loc := positive.

(** The module's mutable bindings: the heap of [MonitorStore] objects and the
    two signals [connected] and [duration]. *)
Record World := {
  heap : gmap loc MonitorStore.t;
  connected : bool;
  duration : string
}.

(** [const initialState: MonitorStore = { events: [], state: {...}, connected: false }]:
    the binding is the identity of the object, the literal is its content when
    the module is loaded. *)
Definition initialState : loc := 1%positive.

Definition initialState_literal : MonitorStore.t :=
  {| MonitorStore.events := [];
     MonitorStore.state :=
       {| MonitorState.active_agent := None;
          MonitorState.active_workflow := None;
          MonitorState.started_at := None;
          MonitorState.event_count := 0 |};
     MonitorStore.connected := false |}.

#[global] Instance MonitorStore_inhabited : Inhabited MonitorStore.t :=
  populate initialState_literal.

(** [createStore(init)] of solid-js/store wraps the object it is given: the
    store's underlying object is [init] itself, no copy is made. *)
Definition createStore (init : loc) : loc := init.

(** [const [store, setStore] = createStore<MonitorStore>(initialState)] *)
Definition store : loc := createStore initialState.

(** The state of the module once it is loaded. *)
Definition initial_world : World :=
  {| heap := {[ initialState := initialState_literal ]};
     connected := false;
     duration := "-" |}.

(** Reading a property of a store object ([store.events], [store.state]). *)
Definition get_events (l : loc) (w : World) : list Event.t :=
  MonitorStore.events (heap w !!! l).

Definition get_state (l : loc) (w : World) : MonitorState.t :=
  MonitorStore.state (heap w !!! l).

Definition get_connected (l : loc) (w : World) : bool :=
  MonitorStore.connected (heap w !!! l).

(** Writing a property through the proxy that [produce] hands to its callback
    (or through [setStore(key, value)]): the write goes to the object itself,
    at once. *)
Definition with_heap (h : gmap loc MonitorStore.t) (w : World) : World :=
  {| heap := h; connected := connected w; duration := duration w |}.

Definition set_events (l : loc) (es : list Event.t) (w : World) : World :=
  with_heap
    (alter (fun o => {| MonitorStore.events := es;
                        MonitorStore.state := MonitorStore.state o;
                        MonitorStore.connected := MonitorStore.connected o |})
           l (heap w)) w.

Definition set_state (l : loc) (st : MonitorState.t) (w : World) : World :=
  with_heap
    (alter (fun o => {| MonitorStore.events := MonitorStore.events o;
                        MonitorStore.state := st;
                        MonitorStore.connected := MonitorStore.connected o |})
           l (heap w)) w.

Definition set_connected (l : loc) (b : bool) (w : World) : World :=
  with_heap
    (alter (fun o => {| MonitorStore.events := MonitorStore.events o;
                        MonitorStore.state := MonitorStore.state o;
                        MonitorStore.connected := b |})
           l (heap w)) w.

Definition setConnected (b : bool) (w : World) : World :=
  {| heap := heap w; connected := b; duration := duration w |}.

Definition setDuration (s : string) (w : World) : World :=
  {| heap := heap w; connected := connected w; duration := s |}.

(** [Array.prototype.slice(start)]: a negative [start] counts from the end. *)
Definition slice {A} (start : Z) (l : list A) : list A :=
  let len := Z.of_nat (length l) in
  let k := if start <? 0 then Z.max (len + start) 0 else Z.min start len in
  drop (Z.to_nat k) l.

(** [updateStateFromEvent(state, event)].  [state] is passed by reference and
    mutated; the function is given the content of that object and returns its
    content afterwards, which the caller stores back.  The last line reads the
    module's [store], not [state]: it sees the heap [w] as it is at the call. *)
Definition updateStateFromEvent (w : World) (state : MonitorState.t)
    (event : Event.t) : MonitorState.t :=
  let state1 :=
    if decide (Event.action event = "start") then
      {| MonitorState.active_agent := Some (Event.agent event);
         MonitorState.active_workflow := Event.workflow event;
         MonitorState.started_at := Some (Event.timestamp event);
         MonitorState.event_count := MonitorState.event_count state |}
    else if decide (Event.action event = "end") then
      if decide (MonitorState.active_agent state = Some (Event.agent event)) then
        {| MonitorState.active_agent := None;
           MonitorState.active_workflow := None;
           MonitorState.started_at := None;
           MonitorState.event_count := MonitorState.event_count state |}
      else state
    else state in
  {| MonitorState.active_agent := MonitorState.active_agent state1;
     MonitorState.active_workflow := MonitorState.active_workflow state1;
     MonitorState.started_at := MonitorState.started_at state1;
     MonitorState.event_count := Z.of_nat (length (get_events store w)) + 1 |}.

(** [handleMessage(message)].  Both branches run a [produce] callback on the
    store: [s] is the store's own object, so [s.events.push(e)] and
    [s.events = ...] are writes to the heap cell [store], in program order. *)
Definition handleMessage (message : WebSocketMessage.t) (w : World) : World :=
  if decide (WebSocketMessage.type message = "init") then
    (* s.events = message.events || []; *)
    let w1 := set_events store (default [] (WebSocketMessage.events message)) w in
    (* if (message.state) s.state = message.state; *)
    match WebSocketMessage.state message with
    | Some st => set_state store st w1
    | None => w1
    end
  else if decide (WebSocketMessage.type message = "event") then
    match WebSocketMessage.event message with
    | Some e =>
        (* s.events.push(message.event!); *)
        let w1 := set_events store (get_events store w ++ [e]) w in
        (* if (s.events.length > 1000) s.events = s.events.slice(-1000); *)
        let w2 :=
          if 1000 <? Z.of_nat (length (get_events store w1))
          then set_events store (slice (-1000) (get_events store w1)) w1
          else w1 in
        (* updateStateFromEvent(s.state, message.event!); *)
        set_state store (updateStateFromEvent w2 (get_state store w2) e) w2
    | None => w
    end
  else w.

(** [handleConnection(isConnected)] *)
Definition handleConnection (isConnected : bool) (w : World) : World :=
  set_connected store isConnected (setConnected isConnected w).

(** [setStore(value)] with an object: solid-js/store merges it into the
    store's object, assigning each own key of [value] to the same key of the
    store's object.  A [MonitorStore] has the keys [events], [state] and
    [connected]. *)
Definition setStore_merge (value : loc) (w : World) : World :=
  match heap w !! value with
  | Some v =>
      set_connected store (MonitorStore.connected v)
        (set_state store (MonitorStore.state v)
           (set_events store (MonitorStore.events v) w))
  | None => w
  end.

(** [resetMonitor()]: [setStore(initialState); setDuration("-");] *)
Definition resetMonitor (w : World) : World :=
  setDuration "-" (setStore_merge initialState w).

(** The formatting done by the callback of [startDurationUpdater] once it has
    [diff], the elapsed milliseconds.  [Math.floor(a / b)] on integers with
    [b > 0] is [Z.div], and [%] is the remainder that takes the sign of the
    dividend, [Z.rem]; a number in a template literal prints in decimal. *)
Definition formatDuration (diff : Z) : string :=
  let seconds := diff / 1000 in
  let minutes := seconds / 60 in
  let hours := minutes / 60 in
  if 0 <? hours then
    pretty hours +:+ "h " +:+ pretty (Z.rem minutes 60) +:+ "m"
  else if 0 <? minutes then
    pretty minutes +:+ "m " +:+ pretty (Z.rem seconds 60) +:+ "s"
  else
    pretty seconds +:+ "s".

(** The callback that [startDurationUpdater] hands to [setInterval(..., 1000)].
    [now] is [Date.now()] and [getTime s] is [new Date(s).getTime()], both in
    milliseconds; [getTime] answers [None] where JavaScript answers NaN, which
    fails both comparisons and prints as "NaN".  An empty string is falsy,
    like [null]. *)
Definition startDurationUpdater_tick (getTime : string -> option Z) (now : Z)
    (w : World) : World :=
  match MonitorState.started_at (get_state store w) with
  | Some startedAt =>
      if decide (startedAt = EmptyString) then setDuration "-" w
      else
        match getTime startedAt with
        | Some t => setDuration (formatDuration (now - t)) w
        | None => setDuration "NaNs" w
        end
  | None => setDuration "-" w
  end.

(** ** Running the store on a stream of messages *)

(** The message [{ type: "event", event: e }]. *)
Definition event_message (e : Event.t) : WebSocketMessage.t :=
  {| WebSocketMessage.type := "event";
     WebSocketMessage.events := None;
     WebSocketMessage.state := None;
     WebSocketMessage.event := Some e;
     WebSocketMessage.message := None |}.

(** The message [{ type: "init", events: es, state: st }]. *)
Definition init_message (es : option (list Event.t))
    (st : option MonitorState.t) : WebSocketMessage.t :=
  {| WebSocketMessage.type := "init";
     WebSocketMessage.events := es;
     WebSocketMessage.state := st;
     WebSocketMessage.event := None;
     WebSocketMessage.message := None |}.

(** Messages are handled in the order of arrival. *)
Definition handleMessages (ms : list WebSocketMessage.t) (w : World) : World :=
  foldl (fun w m => handleMessage m w) w ms.

Definition handleEvents (es : list Event.t) (w : World) : World :=
  handleMessages (event_message <$> es) w.

(** What an observer reads: [store.events] and [store.state]. *)
Definition log (w : World) : list Event.t := get_events store w.
Definition session (w : World) : MonitorState.t := get_state store w.

(** The store object exists (it is created when the module is loaded and
    never deleted). *)
Definition wf (w : World) : Prop := is_Some (heap w !! store).

(** A world is reachable when the operations of the module lead to it from
    the freshly loaded module. *)
Inductive reachable : World -> Prop :=
| reachable_init : reachable initial_world
| reachable_message m w : reachable w -> reachable (handleMessage m w)
| reachable_connection b w : reachable w -> reachable (handleConnection b w)
| reachable_tick getTime now w :
    reachable w -> reachable (startDurationUpdater_tick getTime now w)
| reachable_reset w : reachable w -> reachable (resetMonitor w).

(** The truncation rule of the [event] branch, on the log alone. *)
Definition truncate (l : list Event.t) : list Event.t :=
  if 1000 <? Z.of_nat (length l) then slice (-1000) l else l.

(** * lib/websocket.ts: the reconnecting transport *)

(** [WebSocket.readyState] *)
Inductive ReadyState := CONNECTING | OPEN | CLOSING | CLOSED.

#[global] Instance ReadyState_eq_dec : EqDecision ReadyState.
Proof. solve_decision. Defined.

(** Sockets are numbered in the order of their creation, timeouts by the
    handle that [setTimeout] returns (a positive integer, hence truthy), and
    handlers by the identity of the function. *)
Definition socket_id := nat.
Definition timer_id := positive.
Definition handler_id := nat.

(** The private fields of [class MonitorWebSocket]. *)
Record MonitorWebSocket := {
  ws : option socket_id;
  messageHandlers : list handler_id;
  connectionHandlers : list handler_id;
  reconnectTimeout : option timer_id;
  isManualClose : bool
}.

(** What the transport hands to its subscribers. *)
Inductive Notification :=
| NotifyConnection (handler : handler_id) (connected : bool)
| NotifyMessage (handler : handler_id) (message : WebSocketMessage.t).

(** The transport in its environment: the singleton [monitorWS], the sockets
    it has created (every one of them carries the four callbacks that
    [connect] installs, which act on [monitorWS]), the timeouts that are set
    and have neither fired nor been cleared, and two records kept for the
    statements below: the notifications delivered so far and the number of
    times [connect] has been entered. *)
Record Runtime := {
  monitorWS : MonitorWebSocket;
  sockets : list ReadyState;
  timers : gset timer_id;
  next_timer : timer_id;
  notified : list Notification;
  connect_calls : nat
}.

Definition initial_runtime : Runtime :=
  {| monitorWS := {| ws := None; messageHandlers := []; connectionHandlers := [];
                     reconnectTimeout := None; isManualClose := false |};
     sockets := [];
     timers := ∅;
     next_timer := 1%positive;
     notified := [];
     connect_calls := 0 |}.

Definition with_monitorWS (t : MonitorWebSocket) (r : Runtime) : Runtime :=
  {| monitorWS := t; sockets := sockets r; timers := timers r;
     next_timer := next_timer r; notified := notified r;
     connect_calls := connect_calls r |}.

(** [clearTimeout(t)] *)
Definition clearTimeout (t : timer_id) (r : Runtime) : Runtime :=
  {| monitorWS := monitorWS r; sockets := sockets r; timers := timers r ∖ {[ t ]};
     next_timer := next_timer r; notified := notified r;
     connect_calls := connect_calls r |}.

(** [setTimeout(callback, RECONNECT_DELAY)]: a fresh handle, now pending.  All
    timeouts of this class have the same callback, [() => this.connect()]. *)
Definition setTimeout (r : Runtime) : timer_id * Runtime :=
  (next_timer r,
   {| monitorWS := monitorWS r; sockets := sockets r;
      timers := timers r ∪ {[ next_timer r ]};
      next_timer := Pos.succ (next_timer r); notified := notified r;
      connect_calls := connect_calls r |}).

(** [get isConnected()] *)
Definition isConnected (r : Runtime) : bool :=
  match ws (monitorWS r) with
  | Some id => bool_decide (sockets r !! id = Some OPEN)
  | None => false
  end.

(** [connect()] *)
Definition connect (r : Runtime) : Runtime :=
  let r := {| monitorWS := monitorWS r; sockets := sockets r; timers := timers r;
              next_timer := next_timer r; notified := notified r;
              connect_calls := S (connect_calls r) |} in
  if isConnected r then r
  else
    (* this.isManualClose = false; this.ws = new WebSocket(WS_URL); *)
    {| monitorWS := {| ws := Some (length (sockets r));
                       messageHandlers := messageHandlers (monitorWS r);
                       connectionHandlers := connectionHandlers (monitorWS r);
                       reconnectTimeout := reconnectTimeout (monitorWS r);
                       isManualClose := false |};
       sockets := sockets r ++ [CONNECTING];
       timers := timers r; next_timer := next_timer r; notified := notified r;
       connect_calls := connect_calls r |}.

(** [WebSocket.close()]: a socket that is connecting or open starts closing;
    its close event comes later. *)
Definition close_socket (id : socket_id) (r : Runtime) : Runtime :=
  {| monitorWS := monitorWS r;
     sockets := alter (fun s => match s with
                                | CONNECTING | OPEN => CLOSING
                                | CLOSING | CLOSED => s
                                end) id (sockets r);
     timers := timers r; next_timer := next_timer r; notified := notified r;
     connect_calls := connect_calls r |}.

(** [disconnect()] *)
Definition disconnect (r : Runtime) : Runtime :=
  (* this.isManualClose = true; *)
  let r1 := with_monitorWS
              {| ws := ws (monitorWS r);
                 messageHandlers := messageHandlers (monitorWS r);
                 connectionHandlers := connectionHandlers (monitorWS r);
                 reconnectTimeout := reconnectTimeout (monitorWS r);
                 isManualClose := true |} r in
  (* if (this.reconnectTimeout) { clearTimeout(...); this.reconnectTimeout = null; } *)
  let r2 :=
    match reconnectTimeout (monitorWS r1) with
    | Some t =>
        with_monitorWS
          {| ws := ws (monitorWS r1);
             messageHandlers := messageHandlers (monitorWS r1);
             connectionHandlers := connectionHandlers (monitorWS r1);
             reconnectTimeout := None;
             isManualClose := isManualClose (monitorWS r1) |}
          (clearTimeout t r1)
    | None => r1
    end in
  (* if (this.ws) { this.ws.close(); this.ws = null; } *)
  match ws (monitorWS r2) with
  | Some id =>
      with_monitorWS
        {| ws := None;
           messageHandlers := messageHandlers (monitorWS r2);
           connectionHandlers := connectionHandlers (monitorWS r2);
           reconnectTimeout := reconnectTimeout (monitorWS r2);
           isManualClose := isManualClose (monitorWS r2) |}
        (close_socket id r2)
  | None => r2
  end.

(** [scheduleReconnect()] *)
Definition scheduleReconnect (r : Runtime) : Runtime :=
  let r1 :=
    match reconnectTimeout (monitorWS r) with
    | Some t => clearTimeout t r
    | None => r
    end in
  let '(t', r2) := setTimeout r1 in
  with_monitorWS
    {| ws := ws (monitorWS r2);
       messageHandlers := messageHandlers (monitorWS r2);
       connectionHandlers := connectionHandlers (monitorWS r2);
       reconnectTimeout := Some t';
       isManualClose := isManualClose (monitorWS r2) |} r2.

Definition notify (ns : list Notification) (r : Runtime) : Runtime :=
  {| monitorWS := monitorWS r; sockets := sockets r; timers := timers r;
     next_timer := next_timer r; notified := notified r ++ ns;
     connect_calls := connect_calls r |}.

(** [notifyConnection(connected)] and [notifyMessage(message)]: every handler,
    in the order of registration.  The handlers are those of the store
    ([handleConnection], [handleMessage]); they do not call the transport. *)
Definition notifyConnection (connected : bool) (r : Runtime) : Runtime :=
  notify ((fun h => NotifyConnection h connected) <$> connectionHandlers (monitorWS r)) r.

Definition notifyMessage (message : WebSocketMessage.t) (r : Runtime) : Runtime :=
  notify ((fun h => NotifyMessage h message) <$> messageHandlers (monitorWS r)) r.

(** [onMessage(handler)] and [onConnection(handler)] push the handler; the
    closure they return removes its first occurrence, if any. *)
Fixpoint remove_first (h : handler_id) (l : list handler_id) : list handler_id :=
  match l with
  | [] => []
  | x :: l' => if decide (x = h) then l' else x :: remove_first h l'
  end.

Definition onMessage (h : handler_id) (r : Runtime) : Runtime :=
  with_monitorWS
    {| ws := ws (monitorWS r);
       messageHandlers := messageHandlers (monitorWS r) ++ [h];
       connectionHandlers := connectionHandlers (monitorWS r);
       reconnectTimeout := reconnectTimeout (monitorWS r);
       isManualClose := isManualClose (monitorWS r) |} r.

Definition unsubscribeMessage (h : handler_id) (r : Runtime) : Runtime :=
  with_monitorWS
    {| ws := ws (monitorWS r);
       messageHandlers := remove_first h (messageHandlers (monitorWS r));
       connectionHandlers := connectionHandlers (monitorWS r);
       reconnectTimeout := reconnectTimeout (monitorWS r);
       isManualClose := isManualClose (monitorWS r) |} r.

Definition onConnection (h : handler_id) (r : Runtime) : Runtime :=
  with_monitorWS
    {| ws := ws (monitorWS r);
       messageHandlers := messageHandlers (monitorWS r);
       connectionHandlers := connectionHandlers (monitorWS r) ++ [h];
       reconnectTimeout := reconnectTimeout (monitorWS r);
       isManualClose := isManualClose (monitorWS r) |} r.

Definition unsubscribeConnection (h : handler_id) (r : Runtime) : Runtime :=
  with_monitorWS
    {| ws := ws (monitorWS r);
       messageHandlers := messageHandlers (monitorWS r);
       connectionHandlers := remove_first h (connectionHandlers (monitorWS r));
       reconnectTimeout := reconnectTimeout (monitorWS r);
       isManualClose := isManualClose (monitorWS r) |} r.

Definition set_socket (id : socket_id) (s : ReadyState) (r : Runtime) : Runtime :=
  {| monitorWS := monitorWS r; sockets := <[ id := s ]> (sockets r);
     timers := timers r; next_timer := next_timer r; notified := notified r;
     connect_calls := connect_calls r |}.

(** The callbacks that [connect] installs on a socket. *)
Definition onopen (r : Runtime) : Runtime := notifyConnection true r.

Definition onclose (r : Runtime) : Runtime :=
  let r1 := notifyConnection false r in
  (* Auto-reconnect unless manually closed *)
  if isManualClose (monitorWS r1) then r1 else scheduleReconnect r1.

Definition onerror (r : Runtime) : Runtime := r.

(** [data] is the result of [JSON.parse(event.data)], [None] when it throws. *)
Definition onmessage (data : option WebSocketMessage.t) (r : Runtime) : Runtime :=
  match data with
  | Some message => notifyMessage message r
  | None => r
  end.

(** ** The step relation of the transport *)

(** What can happen to the transport: a call by its client, an event of one
    of its sockets, or the expiry of a pending timeout. *)
Inductive Action :=
| CallConnect
| CallDisconnect
| CallOnMessage (h : handler_id)
| CallUnsubscribeMessage (h : handler_id)
| CallOnConnection (h : handler_id)
| CallUnsubscribeConnection (h : handler_id)
| SocketOpen (id : socket_id)
| SocketClose (id : socket_id)
| SocketError (id : socket_id)
| SocketMessage (id : socket_id) (data : option WebSocketMessage.t)
| TimerFire (t : timer_id).

(** One step; [None] when the action cannot happen in this state (a socket
    opens once, closes once, delivers messages while open; a timeout fires
    only while it is pending, and is no longer pending when its callback
    runs). *)
Definition step (a : Action) (r : Runtime) : option Runtime :=
  match a with
  | CallConnect => Some (connect r)
  | CallDisconnect => Some (disconnect r)
  | CallOnMessage h => Some (onMessage h r)
  | CallUnsubscribeMessage h => Some (unsubscribeMessage h r)
  | CallOnConnection h => Some (onConnection h r)
  | CallUnsubscribeConnection h => Some (unsubscribeConnection h r)
  | SocketOpen id =>
      if decide (sockets r !! id = Some CONNECTING)
      then Some (onopen (set_socket id OPEN r)) else None
  | SocketClose id =>
      match sockets r !! id with
      | Some CONNECTING | Some OPEN | Some CLOSING =>
          Some (onclose (set_socket id CLOSED r))
      | Some CLOSED | None => None
      end
  | SocketError id =>
      if decide (is_Some (sockets r !! id)) then Some (onerror r) else None
  | SocketMessage id data =>
      if decide (sockets r !! id = Some OPEN) then Some (onmessage data r) else None
  | TimerFire t =>
      if decide (t ∈ timers r) then Some (connect (clearTimeout t r)) else None
  end.

Fixpoint run (acts : list Action) (r : Runtime) : option Runtime :=
  match acts with
  | [] => Some r
  | a :: acts' =>
      match step a r with
      | Some r' => run acts' r'
      | None => None
      end
  end.

Inductive reachable_transport : Runtime -> Prop :=
| reachable_transport_init : reachable_transport initial_runtime
| reachable_transport_step a r r' :
    reachable_transport r -> step a r = Some r' -> reachable_transport r'.

(** At most one timeout is pending, and [reconnectTimeout] holds it. *)
Definition one_timer (r : Runtime) : Prop :=
  forall t, t ∈ timers r -> reconnectTimeout (monitorWS r) = Some t.

(** Nothing is pending and reconnection is switched off. *)
Definition quiet (r : Runtime) : Prop :=
  timers r = ∅ /\ isManualClose (monitorWS r) = true.

(** Every pending timeout was handed out by [setTimeout] earlier. *)
Definition timers_issued (r : Runtime) : Prop :=
  forall t, t ∈ timers r -> (t < next_timer r)%positive.

(** The timeout [t] was handed out earlier and is no longer pending. *)
Definition retired (t : timer_id) (r : Runtime) : Prop :=
  (t ∉ timers r) /\ (t < next_timer r)%positive.

(** * Definitions used by the statements *)

(** The fold rule on [active_agent] alone. *)
Definition next_agent (a : option string) (e : Event.t) : option string :=
  if decide (Event.action e = "start") then Some (Event.agent e)
  else if decide (Event.action e = "end") then
    if decide (a = Some (Event.agent e)) then None else a
  else a.

(** [e] is an [end] event of agent [a]. *)
Definition is_end_of (a : string) (e : Event.t) : bool :=
  bool_decide (Event.action e = "end" ∧ Event.agent e = a).

(** The most recent [start] event of a stream, with the events after it. *)
Fixpoint most_recent_start (es : list Event.t) : option (Event.t * list Event.t) :=
  match es with
  | [] => None
  | e :: rest =>
      match most_recent_start rest with
      | Some r => Some r
      | None =>
          if bool_decide (Event.action e = "start") then Some (e, rest) else None
      end
  end.

(** The specification's words, as a function of the stream alone: take the
    most recent [start] event; the active agent is its agent, unless an [end]
    event for that same agent follows it, in which case (and when there is no
    [start] at all) there is none. *)
Definition spec_active_agent (es : list Event.t) : option string :=
  match most_recent_start es with
  | Some (s, later) =>
      if existsb (is_end_of (Event.agent s)) later then None
      else Some (Event.agent s)
  | None => None
  end.

(** An event for the examples below. *)
Definition example_event (agent action : string) : Event.t :=
  {| Event.timestamp := "2026-01-29T10:30:00Z";
     Event.agent := agent;
     Event.action := action;
     Event.workflow := Some "design-feature";
     Event.parent := None;
     Event.metadata := [] |}.

(** The counter after a stream of [event] messages from the freshly loaded
    store. *)
Definition count_after (es : list Event.t) : Z :=
  MonitorState.event_count (session (handleEvents es initial_world)).

(** A run in which a reconnect is pending: a handler subscribes, the client
    connects twice (the first socket is still connecting, so a second one is
    created), and the second socket closes. *)
Definition example_runtime : Runtime :=
  onclose (set_socket 1%nat CLOSED (connect (connect (onConnection 0%nat initial_runtime)))).

(** * The rest of the store module, and its wiring to the transport *)

(** ** [startDurationUpdater] and [stopDurationUpdater]

    [let durationInterval: ReturnType<typeof setInterval> | null = null] and
    the intervals that are set and not cleared.  A handle returned by
    [setInterval] is a positive integer, hence truthy. *)
Definition interval_id := positive.

Record Ticker := {
  durationInterval : option interval_id;
  intervals : gset interval_id;
  next_interval : interval_id
}.

Definition initial_ticker : Ticker :=
  {| durationInterval := None; intervals := ∅; next_interval := 1%positive |}.

(** [startDurationUpdater()]: [if (durationInterval) return;] then
    [durationInterval = setInterval(tick, 1000)]. *)
Definition startDurationUpdater (k : Ticker) : Ticker :=
  match durationInterval k with
  | Some _ => k
  | None =>
      {| durationInterval := Some (next_interval k);
         intervals := intervals k ∪ {[ next_interval k ]};
         next_interval := Pos.succ (next_interval k) |}
  end.

(** [stopDurationUpdater()]: [if (durationInterval) { clearInterval(durationInterval);
    durationInterval = null; }] *)
Definition stopDurationUpdater (k : Ticker) : Ticker :=
  match durationInterval k with
  | Some i =>
      {| durationInterval := None;
         intervals := intervals k ∖ {[ i ]};
         next_interval := next_interval k |}
  | None => k
  end.

(** The interval held by [durationInterval] is the only one that is live, and
    every handle handed out so far is below [next_interval]. *)
Definition ticker_inv (k : Ticker) : Prop :=
  intervals k = match durationInterval k with
                | Some i => {[ i ]}
                | None => ∅
                end /\
  forall i, durationInterval k = Some i -> (i < next_interval k)%positive.

Inductive TickerCall := CallStart | CallStop.

Definition ticker_call (c : TickerCall) (k : Ticker) : Ticker :=
  match c with
  | CallStart => startDurationUpdater k
  | CallStop => stopDurationUpdater k
  end.

Definition ticker_calls (cs : list TickerCall) (k : Ticker) : Ticker :=
  foldl (fun k c => ticker_call c k) k cs.

(** ** [initializeMonitor] and the cleanup function it returns *)

(** The two functions of the store that are registered with the transport,
    by identity. *)
Definition handleMessage_id : handler_id := 0%nat.
Definition handleConnection_id : handler_id := 1%nat.

(** The transport singleton and the ticker of the store module. *)
Record App := {
  transport : Runtime;
  ticker : Ticker
}.

Definition initial_app : App :=
  {| transport := initial_runtime; ticker := initial_ticker |}.

(** [initializeMonitor()]: [monitorWS.onMessage(handleMessage);
    monitorWS.onConnection(handleConnection); monitorWS.connect();
    startDurationUpdater();] *)
Definition initializeMonitor (a : App) : App :=
  {| transport :=
       connect (onConnection handleConnection_id
                  (onMessage handleMessage_id (transport a)));
     ticker := startDurationUpdater (ticker a) |}.

(** The function returned by [initializeMonitor]: [unsubMessage();
    unsubConnection(); monitorWS.disconnect(); stopDurationUpdater();] *)
Definition cleanup (a : App) : App :=
  {| transport :=
       disconnect (unsubscribeConnection handleConnection_id
                     (unsubscribeMessage handleMessage_id (transport a)));
     ticker := stopDurationUpdater (ticker a) |}.

(** ** From the transport's notifications to the store *)

(** A notification is a call of a handler: of [handleMessage] or of
    [handleConnection] when the handler is one of the store's, of a function
    that does not touch the store otherwise. *)
Definition deliver (n : Notification) (w : World) : World :=
  match n with
  | NotifyMessage h m =>
      if decide (h = handleMessage_id) then handleMessage m w else w
  | NotifyConnection h b =>
      if decide (h = handleConnection_id) then handleConnection b w else w
  end.

(** The store after the notifications that the transport has delivered, the
    store being freshly loaded when the first one arrives. *)
Definition store_after (r : Runtime) : World :=
  foldl (fun w n => deliver n w) initial_world (notified r).

(** The client changes the subscriptions. *)
Definition is_subscription (a : Action) : bool :=
  match a with
  | CallOnMessage _ | CallUnsubscribeMessage _
  | CallOnConnection _ | CallUnsubscribeConnection _ => true
  | _ => false
  end.

(** The frames of a run that decode to a message, in the order of arrival. *)
Definition received (acts : list Action) : list WebSocketMessage.t :=
  omap (fun a => match a with
                 | SocketMessage _ (Some m) => Some m
                 | _ => None
                 end) acts.

(** The most recent open or close event of a run, as a connection state;
    [b] when the run has neither. *)
Definition last_connection (b : bool) (acts : list Action) : bool :=
  foldl (fun b a => match a with
                    | SocketOpen _ => true
                    | SocketClose _ => false
                    | _ => b
                    end) b acts.

(** The calls that one action makes when [mh] and [ch] are the registered
    message and connection handlers: one call per handler, in the order of
    registration. *)
Definition notifications_of (mh ch : list handler_id) (a : Action) : list Notification :=
  match a with
  | SocketOpen _ => (fun h => NotifyConnection h true) <$> ch
  | SocketClose _ => (fun h => NotifyConnection h false) <$> ch
  | SocketMessage _ (Some m) => (fun h => NotifyMessage h m) <$> mh
  | _ => []
  end.

(** Two worlds hold the same store content: same log, same session state. *)
Definition same_store (w w' : World) : Prop :=
  wf w /\ wf w' /\ log w = log w' /\ session w = session w'.


(** ** components/Timeline.tsx: [displayEvents] *)

(** [const displayEvents = () => monitorStore.events.slice(-50);] *)
Definition displayEvents (w : World) : list Event.t :=
  slice (-50) (get_events store w).

(** * Properties *)

(** ** Reading after writing, on a store object that exists *)

Section heap_lemmas.
Implicit Types (w : World) (l : loc) (es : list Event.t)
  (st : MonitorState.t) (b : bool).

Lemma wf_initial : wf initial_world.
Proof. exists initialState_literal. reflexivity. Qed.

Lemma wf_lookup w : wf w -> heap w !! store = Some (heap w !!! store).
Proof. apply lookup_lookup_total. Qed.

Lemma wf_set_events es w : wf w -> wf (set_events store es w).
Proof. intros [o Ho]. unfold wf; simpl. rewrite lookup_alter_eq, Ho. by eexists. Qed.

Lemma wf_set_state st w : wf w -> wf (set_state store st w).
Proof. intros [o Ho]. unfold wf; simpl. rewrite lookup_alter_eq, Ho. by eexists. Qed.

Lemma wf_set_connected b w : wf w -> wf (set_connected store b w).
Proof. intros [o Ho]. unfold wf; simpl. rewrite lookup_alter_eq, Ho. by eexists. Qed.

Lemma get_events_set_events es w :
  wf w -> get_events store (set_events store es w) = es.
Proof.
  intros [o Ho]. unfold get_events; simpl.
  by rewrite lookup_total_alter_eq, Ho.
Qed.

Lemma get_state_set_events es w :
  get_state store (set_events store es w) = get_state store w.
Proof.
  unfold get_state; simpl. rewrite lookup_total_alter_eq, lookup_total_alt.
  by destruct (heap w !! store).
Qed.

Lemma get_events_set_state st w :
  get_events store (set_state store st w) = get_events store w.
Proof.
  unfold get_events; simpl. rewrite lookup_total_alter_eq, lookup_total_alt.
  by destruct (heap w !! store).
Qed.

Lemma get_state_set_state st w :
  wf w -> get_state store (set_state store st w) = st.
Proof.
  intros [o Ho]. unfold get_state; simpl.
  by rewrite lookup_total_alter_eq, Ho.
Qed.

Lemma get_events_set_connected b w :
  get_events store (set_connected store b w) = get_events store w.
Proof.
  unfold get_events; simpl. rewrite lookup_total_alter_eq, lookup_total_alt.
  by destruct (heap w !! store).
Qed.

Lemma get_state_set_connected b w :
  get_state store (set_connected store b w) = get_state store w.
Proof.
  unfold get_state; simpl. rewrite lookup_total_alter_eq, lookup_total_alt.
  by destruct (heap w !! store).
Qed.

(** Assigning a property twice keeps the second value. *)
Lemma set_events_set_events es es' w :
  set_events store es' (set_events store es w) = set_events store es' w.
Proof.
  unfold set_events, with_heap; simpl. f_equal.
  apply map_eq; intros i.
  rewrite !lookup_alter. repeat case_decide; try done.
  by destruct (heap w !! store).
Qed.

(** Assigning to a property the value it holds changes nothing. *)
Lemma set_events_same w : set_events store (get_events store w) w = w.
Proof.
  destruct w as [h c d]. unfold set_events, with_heap, get_events; simpl.
  f_equal. apply alter_id. intros o Ho.
  rewrite (lookup_total_correct _ _ _ Ho). by destruct o.
Qed.

Lemma set_state_same w : set_state store (get_state store w) w = w.
Proof.
  destruct w as [h c d]. unfold set_state, with_heap, get_state; simpl.
  f_equal. apply alter_id. intros o Ho.
  rewrite (lookup_total_correct _ _ _ Ho). by destruct o.
Qed.

Lemma set_connected_same w : set_connected store (get_connected store w) w = w.
Proof.
  destruct w as [h c d]. unfold set_connected, with_heap, get_connected; simpl.
  f_equal. apply alter_id. intros o Ho.
  rewrite (lookup_total_correct _ _ _ Ho). by destruct o.
Qed.
End heap_lemmas.

(** ** [slice(-1000)] keeps the last 1000 elements *)

Section slice_lemmas.
Context {A : Type}.
Implicit Types (l k : list A).

Lemma slice_last l : slice (-1000) l = drop (length l - 1000)%nat l.
Proof.
  unfold slice. replace (-1000 <? 0) with true by reflexivity.
  f_equal. lia.
Qed.

Lemma slice_last_short l :
  Z.of_nat (length l) <= 1000 -> slice (-1000) l = l.
Proof.
  intros Hl. rewrite slice_last.
  replace (length l - 1000)%nat with 0%nat by lia. apply drop_0.
Qed.

Lemma length_slice_last l :
  Z.of_nat (length (slice (-1000) l)) = Z.min (Z.of_nat (length l)) 1000.
Proof. rewrite slice_last, length_drop. lia. Qed.

(** Truncating, appending and truncating again is truncating once. *)
Lemma slice_last_snoc l x :
  slice (-1000) (slice (-1000) l ++ [x]) = slice (-1000) (l ++ [x]).
Proof.
  destruct (decide (Z.of_nat (length l) <= 1000)) as [Hl|Hl].
  - by rewrite (slice_last_short l).
  - rewrite !slice_last, !length_app, !length_drop; simpl length.
    rewrite !drop_app_le by (rewrite ?length_drop; lia).
    rewrite drop_drop. do 2 f_equal. lia.
Qed.

Lemma lookup_slice_last l i :
  slice (-1000) l !! i = l !! ((length l - 1000) + i)%nat.
Proof. rewrite slice_last. apply lookup_drop. Qed.
End slice_lemmas.

Lemma truncate_slice l : truncate l = slice (-1000) l.
Proof.
  unfold truncate. destruct (Z.ltb_spec 1000 (Z.of_nat (length l))); [done|].
  by rewrite slice_last_short.
Qed.

(** ** The message handler, one message at a time *)

Section handler_lemmas.
Implicit Types (w : World) (e : Event.t) (es : list Event.t)
  (m : WebSocketMessage.t).

(** The [event] branch in closed form: the log is extended and truncated
    first, the state object is updated against that heap afterwards. *)
Lemma handleMessage_event e w :
  wf w ->
  handleMessage (event_message e) w =
    let w2 := set_events store (truncate (log w ++ [e])) w in
    set_state store (updateStateFromEvent w2 (session w) e) w2.
Proof.
  intros Hw. unfold handleMessage, event_message; simpl.
  rewrite !get_events_set_events by done.
  unfold truncate, log, session.
  destruct (1000 <? Z.of_nat (length (get_events store w ++ [e]))).
  - by rewrite set_events_set_events, get_state_set_events.
  - by rewrite get_state_set_events.
Qed.

Lemma handleMessage_init oes ost w :
  handleMessage (init_message oes ost) w =
    let w1 := set_events store (default [] oes) w in
    match ost with Some st => set_state store st w1 | None => w1 end.
Proof. reflexivity. Qed.

Lemma wf_handleMessage m w : wf w -> wf (handleMessage m w).
Proof.
  intros Hw. unfold handleMessage.
  repeat case_decide; repeat case_match;
    auto using wf_set_events, wf_set_state.
Qed.

Lemma log_handleMessage_event e w :
  wf w -> log (handleMessage (event_message e) w) = truncate (log w ++ [e]).
Proof.
  intros Hw. rewrite handleMessage_event by done. unfold log; simpl.
  by rewrite get_events_set_state, get_events_set_events.
Qed.

Lemma session_handleMessage_event e w :
  wf w ->
  session (handleMessage (event_message e) w) =
    updateStateFromEvent (set_events store (truncate (log w ++ [e])) w)
      (session w) e.
Proof.
  intros Hw. rewrite handleMessage_event by done. unfold session; simpl.
  rewrite get_state_set_state; auto using wf_set_events.
Qed.

Lemma event_count_handleMessage_event e w :
  wf w ->
  MonitorState.event_count (session (handleMessage (event_message e) w)) =
    Z.of_nat (length (log (handleMessage (event_message e) w))) + 1.
Proof.
  intros Hw. rewrite session_handleMessage_event, log_handleMessage_event by done.
  unfold updateStateFromEvent; simpl.
  by rewrite get_events_set_events.
Qed.

Lemma active_agent_updateStateFromEvent w st e :
  MonitorState.active_agent (updateStateFromEvent w st e) =
    next_agent (MonitorState.active_agent st) e.
Proof.
  unfold updateStateFromEvent, next_agent; simpl.
  repeat case_decide; reflexivity.
Qed.

Lemma active_agent_handleMessage_event e w :
  wf w ->
  MonitorState.active_agent (session (handleMessage (event_message e) w)) =
    next_agent (MonitorState.active_agent (session w)) e.
Proof.
  intros Hw. rewrite session_handleMessage_event by done.
  apply active_agent_updateStateFromEvent.
Qed.

(** *** Streams of [event] messages *)

Lemma handleEvents_nil w : handleEvents [] w = w.
Proof. reflexivity. Qed.

Lemma handleEvents_cons e es w :
  handleEvents (e :: es) w = handleEvents es (handleMessage (event_message e) w).
Proof. reflexivity. Qed.

Lemma handleEvents_snoc es e w :
  handleEvents (es ++ [e]) w = handleMessage (event_message e) (handleEvents es w).
Proof. unfold handleEvents, handleMessages. by rewrite fmap_app, foldl_app. Qed.

Lemma handleEvents_app es es' w :
  handleEvents (es ++ es') w = handleEvents es' (handleEvents es w).
Proof. unfold handleEvents, handleMessages. by rewrite fmap_app, foldl_app. Qed.

Lemma wf_handleEvents es w : wf w -> wf (handleEvents es w).
Proof.
  revert w. induction es as [|e es IH]; intros w Hw; [done|].
  rewrite handleEvents_cons. auto using wf_handleMessage.
Qed.

(** After at least one [event] message the log holds the last 1000 events of
    everything appended so far. *)
Lemma log_handleEvents es w :
  wf w -> es ≠ [] ->
  log (handleEvents es w) = slice (-1000) (log w ++ es).
Proof.
  intros Hw. induction es as [|e es IH] using rev_ind; [done|]. intros _.
  rewrite handleEvents_snoc, log_handleMessage_event by auto using wf_handleEvents.
  rewrite truncate_slice. destruct es as [|e' es'].
  - by rewrite handleEvents_nil.
  - rewrite IH by done. by rewrite slice_last_snoc, app_assoc.
Qed.

Lemma event_count_handleEvents es w :
  wf w -> es ≠ [] ->
  MonitorState.event_count (session (handleEvents es w)) =
    Z.min (Z.of_nat (length (log w)) + Z.of_nat (length es)) 1000 + 1.
Proof.
  intros Hw Hes.
  destruct (exists_last Hes) as (es' & e & ->).
  rewrite handleEvents_snoc, event_count_handleMessage_event
    by auto using wf_handleEvents.
  rewrite <- handleEvents_snoc, log_handleEvents by done.
  rewrite length_slice_last, length_app. lia.
Qed.

Lemma log_initial : log initial_world = [].
Proof. reflexivity. Qed.

Lemma session_initial :
  session initial_world = MonitorStore.state initialState_literal.
Proof. reflexivity. Qed.
End handler_lemmas.

(** ** The active session after a stream of events *)

Section active_agent.
Implicit Types (w : World) (e : Event.t) (es : list Event.t) (a : option string).

Lemma active_agent_handleEvents es w :
  wf w ->
  MonitorState.active_agent (session (handleEvents es w)) =
    foldl next_agent (MonitorState.active_agent (session w)) es.
Proof.
  revert w. induction es as [|e es IH]; intros w Hw; [done|].
  rewrite handleEvents_cons, IH by auto using wf_handleMessage.
  simpl. by rewrite active_agent_handleMessage_event.
Qed.

Lemma is_end_of_true x e :
  Event.action e = "end" -> is_end_of x e = bool_decide (Event.agent e = x).
Proof.
  intros He. unfold is_end_of.
  apply bool_decide_ext. split; [by intros [_ ?] | by intros ?].
Qed.

Lemma is_end_of_false x e : Event.action e ≠ "end" -> is_end_of x e = false.
Proof. intros He. unfold is_end_of. apply bool_decide_eq_false. by intros [? _]. Qed.

(** Folding the rule over a stream: what survives is the most recent [start]
    if there is one, and else the agent that was active at the beginning, in
    both cases unless one of its [end] events follows. *)
Lemma foldl_next_agent es a :
  foldl next_agent a es =
    match most_recent_start es with
    | Some (s, later) =>
        if existsb (is_end_of (Event.agent s)) later then None
        else Some (Event.agent s)
    | None =>
        match a with
        | Some x => if existsb (is_end_of x) es then None else Some x
        | None => None
        end
    end.
Proof.
  revert a. induction es as [|e es IH]; intros a; simpl.
  { by destruct a. }
  rewrite IH. destruct (most_recent_start es) as [[s later]|]; [done|].
  unfold next_agent. case_bool_decide as Hstart.
  - rewrite decide_True by done. done.
  - rewrite decide_False by done. case_decide as Hend.
    + destruct a as [x|]; [|by rewrite decide_False].
      rewrite is_end_of_true by done. case_decide as Hx.
      * injection Hx as ->. by rewrite bool_decide_eq_true_2.
      * rewrite bool_decide_eq_false_2 by congruence. done.
    + destruct a as [x|]; [|done]. by rewrite is_end_of_false.
Qed.
End active_agent.

(** C1. For every finite stream of [event] messages handled from the freshly
    loaded store, the final [active_agent] is the agent of the most recent
    [start] event when no [end] event with that agent follows it, and [null]
    when one does (or when the stream has no [start]).  Moreover a [start]
    event, handled in any state of the store, sets [active_agent],
    [active_workflow] and [started_at] to its own agent, workflow and
    timestamp, whatever was active before. *)
Theorem active_agent_most_recent_start :
  (forall es : list Event.t,
     MonitorState.active_agent (session (handleEvents es initial_world)) =
       spec_active_agent es) /\
  (forall (w : World) (e : Event.t),
     wf w -> Event.action e = "start" ->
     let st := session (handleMessage (event_message e) w) in
     MonitorState.active_agent st = Some (Event.agent e) /\
     MonitorState.active_workflow st = Event.workflow e /\
     MonitorState.started_at st = Some (Event.timestamp e)).
Proof.
  split.
  - intros es. rewrite active_agent_handleEvents by apply wf_initial.
    rewrite foldl_next_agent. unfold spec_active_agent.
    by destruct (most_recent_start es) as [[s later]|].
  - intros w e Hw Hstart st. subst st.
    rewrite session_handleMessage_event by done.
    unfold updateStateFromEvent. rewrite decide_True by done. by simpl.
Qed.

(** The rule does not stack sessions: once a second agent has started, the end
    of that agent leaves nobody active, although the first never ended. *)
Example active_agent_no_stacking :
  MonitorState.active_agent
    (session (handleEvents [example_event "architect" "start";
                            example_event "coder" "start";
                            example_event "coder" "end"] initial_world)) = None.
Proof. reflexivity. Qed.

Example active_agent_stale_end :
  MonitorState.active_agent
    (session (handleEvents [example_event "architect" "start";
                            example_event "coder" "start";
                            example_event "architect" "end"] initial_world))
  = Some "coder".
Proof. reflexivity. Qed.

(** ** The event counter *)

Section event_count.
Implicit Types (w : World) (e : Event.t) (es : list Event.t).

Lemma count_after_nil : count_after [] = 0.
Proof. reflexivity. Qed.

Lemma count_after_nonempty es :
  es ≠ [] -> count_after es = Z.min (Z.of_nat (length es)) 1000 + 1.
Proof.
  intros Hes. unfold count_after.
  rewrite event_count_handleEvents by auto using wf_initial.
  by rewrite log_initial.
Qed.

Lemma count_after_snoc es e :
  count_after (es ++ [e]) = Z.min (Z.of_nat (length es) + 1) 1000 + 1.
Proof.
  rewrite count_after_nonempty by (by destruct es).
  rewrite length_app; simpl. do 2 f_equal. lia.
Qed.

Lemma count_after_bounds es : 0 <= count_after es <= 1001.
Proof.
  destruct es as [|e es]; [by rewrite count_after_nil|].
  rewrite count_after_nonempty by done. simpl length. lia.
Qed.
End event_count.

(** C2, as the code has it.  [event_count] is computed from the length of the
    truncated log, so over a stream of [event] messages handled from the
    freshly loaded store it never decreases, it grows with each of the first
    1000 messages, it never exceeds 1001, and from the 1001st message on it
    stays at 1001: it does not keep increasing past the capacity. *)
Theorem event_count_bounded_by_capacity (es : list Event.t) (e : Event.t) :
  count_after es <= count_after (es ++ [e]) /\
  count_after (es ++ [e]) <= 1001 /\
  (Z.of_nat (length es) < 1000 -> count_after es < count_after (es ++ [e])) /\
  (1000 <= Z.of_nat (length es) -> count_after (es ++ [e]) = 1001).
Proof.
  rewrite count_after_snoc.
  destruct es as [|e' es'].
  - rewrite count_after_nil. simpl. lia.
  - rewrite count_after_nonempty by done. lia.
Qed.

(** C2, as stated, fails: after 1002 events the counter is not 1002, and it
    has not moved since the 1001st. *)
Lemma event_count_stops_at_capacity :
  count_after (replicate 1002 (example_event "coder" "start")) ≠ 1002 /\
  count_after (replicate 1002 (example_event "coder" "start")) =
    count_after (replicate 1001 (example_event "coder" "start")).
Proof. split; [by vm_compute | by vm_compute]. Qed.

(** C3, on the code.  The counter is assigned while the store already holds
    the appended (and truncated) log, so it is the length of the log after the
    append plus one.  On the freshly loaded store, whose log has length 0, the
    first event sets it to 2 and not to 0 + 1. *)
Theorem event_count_first_event (e : Event.t) :
  length (log initial_world) = 0%nat /\
  log (handleMessage (event_message e) initial_world) = [e] /\
  MonitorState.event_count
    (session (handleMessage (event_message e) initial_world)) = 2.
Proof.
  split; [done|].
  assert (Hlog : log (handleMessage (event_message e) initial_world) = [e]).
  { by rewrite log_handleMessage_event by apply wf_initial. }
  split; [done|].
  rewrite event_count_handleMessage_event by apply wf_initial.
  by rewrite Hlog.
Qed.

(** In every state of the store the counter ends one above the length that
    the log has after the message is handled. *)
Lemma event_count_is_length_after_plus_one (w : World) (e : Event.t) :
  wf w ->
  MonitorState.event_count (session (handleMessage (event_message e) w)) =
    Z.of_nat (length (truncate (log w ++ [e]))) + 1.
Proof.
  intros Hw. rewrite event_count_handleMessage_event by done.
  by rewrite log_handleMessage_event.
Qed.

(** ** The bounded log *)

(** C4. From a store whose log is empty, a stream of [event] messages leaves
    in the log the last 1000 events of the stream, in the order of arrival;
    so after 1001 messages the log has length exactly 1000 and its first
    element is the event that was appended second.  In general one [event]
    message appends its event at the end of the log and, when the length then
    exceeds 1000, drops elements from the front so that 1000 remain. *)
Theorem log_keeps_last_1000 (w : World) (es : list Event.t) :
  wf w -> log w = [] ->
  log (handleEvents es w) = slice (-1000) es /\
  (length es = 1001%nat ->
     length (log (handleEvents es w)) = 1000%nat /\
     log (handleEvents es w) !! 0%nat = es !! 1%nat /\
     log (handleEvents es w) = drop 1 es) /\
  (forall e : Event.t,
     let l := log (handleEvents es w) ++ [e] in
     log (handleMessage (event_message e) (handleEvents es w)) =
       if 1000 <? Z.of_nat (length l) then drop (length l - 1000)%nat l else l).
Proof.
  intros Hw Hnil.
  assert (Hlog : log (handleEvents es w) = slice (-1000) es).
  { destruct es as [|e es]; [by rewrite handleEvents_nil, Hnil|].
    rewrite log_handleEvents by done. by rewrite Hnil. }
  split; [done|]. split.
  - intros Hlen. rewrite Hlog, lookup_slice_last, slice_last, length_drop, Hlen.
    replace (1001 - 1000)%nat with 1%nat by lia.
    split; [lia|]. split; [by rewrite Nat.add_0_r | done].
  - intros e l. rewrite log_handleMessage_event by auto using wf_handleEvents.
    fold l. unfold truncate. by rewrite slice_last.
Qed.

Lemma log_keeps_last_1000_witness :
  wf initial_world /\ log initial_world = [] /\
  log (handleEvents (replicate 1001 (example_event "coder" "start")) initial_world) =
    slice (-1000) (replicate 1001 (example_event "coder" "start")).
Proof.
  split; [exact wf_initial|]. split; [reflexivity|].
  exact (proj1 (log_keeps_last_1000 initial_world
                  (replicate 1001 (example_event "coder" "start"))
                  wf_initial eq_refl)).
Defined.

(** C6. In every state of the store, an [end] event whose agent is not the
    current [active_agent] leaves [active_agent], [active_workflow] and
    [started_at] as they were; the event is still appended to the log (which
    is then truncated as usual) and [event_count] is still assigned from the
    log. *)
Theorem end_of_other_agent_keeps_session (w : World) (e : Event.t) :
  wf w ->
  Event.action e = "end" ->
  MonitorState.active_agent (session w) ≠ Some (Event.agent e) ->
  let w' := handleMessage (event_message e) w in
  MonitorState.active_agent (session w') = MonitorState.active_agent (session w) /\
  MonitorState.active_workflow (session w') = MonitorState.active_workflow (session w) /\
  MonitorState.started_at (session w') = MonitorState.started_at (session w) /\
  log w' = truncate (log w ++ [e]) /\
  last (log w') = Some e /\
  MonitorState.event_count (session w') = Z.of_nat (length (log w')) + 1.
Proof.
  intros Hw Hend Hother w'. subst w'.
  rewrite event_count_handleMessage_event, log_handleMessage_event by done.
  rewrite session_handleMessage_event by done.
  unfold updateStateFromEvent.
  rewrite decide_False by (rewrite Hend; discriminate).
  rewrite decide_True by done. rewrite decide_False by done. simpl.
  repeat split; try done.
  rewrite truncate_slice, slice_last, drop_app_le; [apply last_snoc|].
  rewrite length_app; simpl. lia.
Qed.

Lemma end_of_other_agent_keeps_session_witness :
  let w := handleMessage (event_message (example_event "coder" "start")) initial_world in
  let w' := handleMessage (event_message (example_event "tester" "end")) w in
  MonitorState.active_agent (session w') = MonitorState.active_agent (session w) /\
  MonitorState.active_workflow (session w') = MonitorState.active_workflow (session w) /\
  MonitorState.started_at (session w') = MonitorState.started_at (session w) /\
  log w' = truncate (log w ++ [example_event "tester" "end"]) /\
  last (log w') = Some (example_event "tester" "end") /\
  MonitorState.event_count (session w') = Z.of_nat (length (log w')) + 1.
Proof.
  apply (end_of_other_agent_keeps_session
           (handleMessage (event_message (example_event "coder" "start")) initial_world)
           (example_event "tester" "end")).
  - apply wf_handleMessage, wf_initial.
  - reflexivity.
  - discriminate.
Defined.

Lemma log_handleMessage_init (w : World) (es : list Event.t)
    (ost : option MonitorState.t) :
  wf w -> log (handleMessage (init_message (Some es) ost) w) = es.
Proof.
  intros Hw. rewrite handleMessage_init. cbv zeta.
  destruct ost as [st|]; unfold log, default.
  - by rewrite get_events_set_state, get_events_set_events.
  - by rewrite get_events_set_events.
Qed.

(** C9. An [init] message installs its list of events as the log, whatever
    its length: handled by the freshly loaded store, an [init] message that
    carries 1001 events leaves a log of length 1001.  The [event] branch, on
    the contrary, always leaves at most 1000 events.  So the bound of 1000 is
    kept by [event] messages and not by [init] messages. *)
Theorem init_message_bypasses_capacity :
  (forall (w : World) (es : list Event.t) (ost : option MonitorState.t),
     wf w -> log (handleMessage (init_message (Some es) ost) w) = es) /\
  (exists m : WebSocketMessage.t,
     WebSocketMessage.type m = "init" /\
     Z.of_nat (length (log initial_world)) <= 1000 /\
     1000 < Z.of_nat (length (log (handleMessage m initial_world)))) /\
  (forall (w : World) (e : Event.t),
     wf w ->
     Z.of_nat (length (log (handleMessage (event_message e) w))) <= 1000).
Proof.
  split; [|split].
  - apply log_handleMessage_init.
  - exists (init_message (Some (replicate 1001 (example_event "coder" "start"))) None).
    split; [reflexivity|]. split; [rewrite log_initial; simpl; lia|].
    rewrite log_handleMessage_init by apply wf_initial.
    rewrite length_replicate. lia.
  - intros w e Hw. rewrite log_handleMessage_event, truncate_slice by done.
    rewrite length_slice_last. lia.
Qed.

(** C10. In every state of the store, a message of type [event] that carries
    no [event] field changes nothing at all: the handler returns with the
    world (log, session state, counters, signals) exactly as it found it. *)
Theorem event_message_without_event_is_noop (w : World) (m : WebSocketMessage.t) :
  WebSocketMessage.type m = "event" ->
  WebSocketMessage.event m = None ->
  handleMessage m w = w /\
  log (handleMessage m w) = log w /\
  session (handleMessage m w) = session w.
Proof.
  intros Htype Hevent.
  assert (H : handleMessage m w = w).
  { unfold handleMessage. rewrite Htype, Hevent.
    rewrite decide_False by discriminate. by rewrite decide_True. }
  by rewrite H.
Qed.

Lemma event_message_without_event_is_noop_witness :
  let m := {| WebSocketMessage.type := "event";
              WebSocketMessage.events := None;
              WebSocketMessage.state := None;
              WebSocketMessage.event := None;
              WebSocketMessage.message := Some "ignored" |} in
  let w := handleMessage (event_message (example_event "coder" "start")) initial_world in
  handleMessage m w = w /\
  log (handleMessage m w) = log w /\
  session (handleMessage m w) = session w.
Proof.
  apply event_message_without_event_is_noop; reflexivity.
Defined.

(** ** Resetting the store *)

Section reset.
Implicit Types (w : World).

(** Merging the object [initialState] into the store assigns to each property
    of the store's object the value that this very object holds. *)
Lemma setStore_merge_initialState w : setStore_merge initialState w = w.
Proof.
  unfold setStore_merge. destruct (heap w !! initialState) as [v|] eqn:Hv; [|done].
  replace (MonitorStore.events v) with (get_events store w)
    by (unfold get_events; by rewrite (lookup_total_correct _ _ _ Hv)).
  rewrite set_events_same.
  replace (MonitorStore.state v) with (get_state store w)
    by (unfold get_state; by rewrite (lookup_total_correct _ _ _ Hv)).
  rewrite set_state_same.
  replace (MonitorStore.connected v) with (get_connected store w)
    by (unfold get_connected; by rewrite (lookup_total_correct _ _ _ Hv)).
  apply set_connected_same.
Qed.

Lemma resetMonitor_heap w : resetMonitor w = setDuration "-" w.
Proof. unfold resetMonitor. by rewrite setStore_merge_initialState. Qed.

(** Merging any other object whose content is the initial literal does empty
    the store. *)
Lemma setStore_merge_fresh_copy w (l : loc) :
  wf w -> l ≠ store -> heap w !! l = Some initialState_literal ->
  log (setStore_merge l w) = [] /\
  session (setStore_merge l w) = MonitorStore.state initialState_literal.
Proof.
  intros Hw Hl Hv. unfold setStore_merge. rewrite Hv. unfold log, session.
  rewrite get_events_set_connected, get_events_set_state, get_events_set_events by done.
  rewrite get_state_set_connected, get_state_set_state by auto using wf_set_events.
  done.
Qed.
End reset.

(** C5, on the code.  [initialState] is the object the store was created on,
    and the handler writes into it; [resetMonitor] then merges that object
    into itself.  After one event the reachable store is not emptied by
    [resetMonitor]: the log still holds the event, [active_agent] and
    [event_count] are as before, only the duration string is reset. *)
Theorem resetMonitor_after_event :
  let e := example_event "coder" "start" in
  let w := handleMessage (event_message e) initial_world in
  reachable w /\
  log (resetMonitor w) = [e] /\
  MonitorState.active_agent (session (resetMonitor w)) = Some "coder" /\
  MonitorState.event_count (session (resetMonitor w)) = 2 /\
  duration (resetMonitor w) = "-".
Proof.
  intros e w. split; [apply reachable_message, reachable_init|].
  rewrite resetMonitor_heap. by vm_compute.
Qed.

(** ** The duration string *)

Section duration.
Implicit Types (d : Z).

Lemma formatDuration_flat d :
  formatDuration d =
    if 0 <? d / 3600000 then
      pretty (d / 3600000) +:+ "h " +:+ pretty (Z.rem (d / 60000) 60) +:+ "m"
    else if 0 <? d / 60000 then
      pretty (d / 60000) +:+ "m " +:+ pretty (Z.rem (d / 1000) 60) +:+ "s"
    else pretty (d / 1000) +:+ "s".
Proof.
  assert (Hm : d / 1000 / 60 = d / 60000) by (by rewrite Z.div_div by lia).
  assert (Hh : d / 1000 / 60 / 60 = d / 3600000) by (by rewrite !Z.div_div by lia).
  unfold formatDuration. by rewrite Hh, Hm.
Qed.

Lemma formatDuration_hours d :
  3600000 <= d ->
  formatDuration d =
    pretty (d / 3600000) +:+ "h " +:+ pretty ((d / 60000) mod 60) +:+ "m".
Proof.
  intros Hd. rewrite formatDuration_flat.
  assert (0 < d / 3600000) by (apply Z.div_str_pos; lia).
  destruct (Z.ltb_spec 0 (d / 3600000)); [|lia].
  rewrite Z.rem_mod_nonneg by (try apply Z.div_pos; lia). done.
Qed.

Lemma formatDuration_minutes d :
  60000 <= d < 3600000 ->
  formatDuration d =
    pretty (d / 60000) +:+ "m " +:+ pretty ((d / 1000) mod 60) +:+ "s".
Proof.
  intros Hd. rewrite formatDuration_flat.
  rewrite (Z.div_small d 3600000) by lia.
  assert (0 < d / 60000) by (apply Z.div_str_pos; lia).
  change (0 <? 0) with false. cbv iota.
  destruct (Z.ltb_spec 0 (d / 60000)); [|lia].
  rewrite Z.rem_mod_nonneg by (try apply Z.div_pos; lia). done.
Qed.

Lemma formatDuration_seconds d :
  d < 60000 -> formatDuration d = pretty (d / 1000) +:+ "s".
Proof.
  intros Hd. rewrite formatDuration_flat.
  assert (d / 3600000 <= 0).
  { destruct (decide (0 <= d)); [rewrite Z.div_small by lia; lia|].
    assert (d / 3600000 < 0) by (apply Z.div_lt_upper_bound; lia). lia. }
  assert (d / 60000 <= 0).
  { destruct (decide (0 <= d)); [rewrite Z.div_small by lia; lia|].
    assert (d / 60000 < 0) by (apply Z.div_lt_upper_bound; lia). lia. }
  destruct (Z.ltb_spec 0 (d / 3600000)); [lia|].
  destruct (Z.ltb_spec 0 (d / 60000)); [lia|]. done.
Qed.

End duration.

(** C8. On a tick, the duration string is ["-"] when [started_at] is null;
    otherwise it is the format of the elapsed time [now - started_at]: at 90
    elapsed seconds ["1m 30s"], at 3661 elapsed seconds ["1h 1m"], and in
    general hours and minutes from one hour on, minutes and seconds from one
    minute to under one hour, and seconds alone below one minute. *)
Theorem duration_tick_format (getTime : string -> option Z) (now : Z) (w : World) :
  (MonitorState.started_at (session w) = None ->
     duration (startDurationUpdater_tick getTime now w) = "-") /\
  (forall (s : string) (t : Z),
     MonitorState.started_at (session w) = Some s -> s ≠ EmptyString ->
     getTime s = Some t ->
     let d := now - t in
     duration (startDurationUpdater_tick getTime now w) = formatDuration d /\
     (d / 1000 = 90 -> formatDuration d = "1m 30s") /\
     (d / 1000 = 3661 -> formatDuration d = "1h 1m") /\
     (3600000 <= d ->
        formatDuration d =
          pretty (d / 3600000) +:+ "h " +:+ pretty ((d / 60000) mod 60) +:+ "m") /\
     (60000 <= d < 3600000 ->
        formatDuration d =
          pretty (d / 60000) +:+ "m " +:+ pretty ((d / 1000) mod 60) +:+ "s") /\
     (d < 60000 -> formatDuration d = pretty (d / 1000) +:+ "s")).
Proof.
  split.
  - intros Hnull. unfold startDurationUpdater_tick. fold (session w). by rewrite Hnull.
  - intros s t Hs Hne Ht d. split; [|split; [|split]].
    + unfold startDurationUpdater_tick. fold (session w). rewrite Hs.
      rewrite decide_False by done. by rewrite Ht.
    + intros H90. unfold formatDuration. by rewrite H90.
    + intros H3661. unfold formatDuration. by rewrite H3661.
    + auto using formatDuration_hours, formatDuration_minutes,
        formatDuration_seconds.
Qed.

(** A tick 90 seconds, then 3661 seconds, after the start of the session. *)
Example duration_tick_examples :
  let getTime := fun _ : string => Some 1769682600000 in
  let w := handleMessage (event_message (example_event "coder" "start")) initial_world in
  duration (startDurationUpdater_tick getTime (1769682600000 + 90 * 1000) w) = "1m 30s" /\
  duration (startDurationUpdater_tick getTime (1769682600000 + 3661 * 1000) w) = "1h 1m" /\
  duration (startDurationUpdater_tick getTime (1769682600000 + 59 * 1000 + 999) w) = "59s" /\
  duration (startDurationUpdater_tick getTime 1769682600000 initial_world) = "-".
Proof. by vm_compute. Qed.

(** ** The transport *)

Section transport_lemmas.
Implicit Types (r : Runtime) (a : Action) (t : timer_id).

(** [one_timer] looks at the pending timeouts and at [reconnectTimeout] only. *)
Lemma one_timer_same r r' :
  timers r' = timers r ->
  reconnectTimeout (monitorWS r') = reconnectTimeout (monitorWS r) ->
  one_timer r -> one_timer r'.
Proof. unfold one_timer. intros -> ->. done. Qed.

Lemma one_timer_connect r : one_timer r -> one_timer (connect r).
Proof. apply one_timer_same; unfold connect; by case_match. Qed.

Lemma one_timer_clearTimeout t r : one_timer r -> one_timer (clearTimeout t r).
Proof.
  unfold one_timer, clearTimeout; simpl. intros H t' Ht'.
  apply elem_of_difference in Ht' as [Ht' _]. by apply H.
Qed.

Lemma timers_disconnect r :
  timers (disconnect r) =
    match reconnectTimeout (monitorWS r) with
    | Some t => timers r ∖ {[ t ]}
    | None => timers r
    end.
Proof.
  unfold disconnect; simpl.
  destruct (reconnectTimeout (monitorWS r)); simpl;
    by destruct (ws (monitorWS r)).
Qed.

Lemma isManualClose_disconnect r : isManualClose (monitorWS (disconnect r)) = true.
Proof.
  unfold disconnect; simpl.
  destruct (reconnectTimeout (monitorWS r)); simpl;
    by destruct (ws (monitorWS r)).
Qed.

Lemma connect_calls_disconnect r : connect_calls (disconnect r) = connect_calls r.
Proof.
  unfold disconnect; simpl.
  destruct (reconnectTimeout (monitorWS r)); simpl;
    by destruct (ws (monitorWS r)).
Qed.

(** Under [one_timer], clearing [reconnectTimeout] clears everything. *)
Lemma timers_disconnect_empty r : one_timer r -> timers (disconnect r) = ∅.
Proof.
  intros H. rewrite timers_disconnect. apply set_eq; intros t.
  rewrite elem_of_empty. split; [|done].
  destruct (reconnectTimeout (monitorWS r)) as [t0|] eqn:Ht0.
  - intros [Ht Hne]%elem_of_difference. apply H in Ht.
    rewrite Ht0 in Ht. injection Ht as ->. apply Hne. by apply elem_of_singleton.
  - intros Ht. apply H in Ht. by rewrite Ht0 in Ht.
Qed.

Lemma one_timer_disconnect r : one_timer r -> one_timer (disconnect r).
Proof.
  intros H t. rewrite (timers_disconnect_empty r H), elem_of_empty. done.
Qed.

Lemma one_timer_scheduleReconnect r : one_timer r -> one_timer (scheduleReconnect r).
Proof.
  unfold one_timer, scheduleReconnect; simpl. intros H t.
  destruct (reconnectTimeout (monitorWS r)) as [t0|] eqn:Ht0; simpl.
  - intros [[Ht Hne]%elem_of_difference | Ht%elem_of_singleton]%elem_of_union;
      [|by subst].
    apply H in Ht. injection Ht as ->.
    exfalso. apply Hne. by apply elem_of_singleton.
  - intros [Ht | Ht%elem_of_singleton]%elem_of_union; [|by subst].
    by apply H in Ht.
Qed.

Lemma one_timer_onclose r : one_timer r -> one_timer (onclose r).
Proof.
  intros H. unfold onclose. case_match; [done|].
  by apply one_timer_scheduleReconnect.
Qed.

Lemma one_timer_step a r r' : one_timer r -> step a r = Some r' -> one_timer r'.
Proof.
  intros H Hstep. destruct a; simpl in Hstep.
  - injection Hstep as <-. by apply one_timer_connect.
  - injection Hstep as <-. by apply one_timer_disconnect.
  - by injection Hstep as <-.
  - by injection Hstep as <-.
  - by injection Hstep as <-.
  - by injection Hstep as <-.
  - case_decide; [|done]. by injection Hstep as <-.
  - assert (r' = onclose (set_socket id CLOSED r)) as ->
      by (repeat case_match; by simplify_eq).
    by apply one_timer_onclose.
  - case_decide; [|done]. by injection Hstep as <-.
  - case_decide; [|done]. injection Hstep as <-. by destruct data.
  - case_decide; [|done]. injection Hstep as <-.
    by apply one_timer_connect, one_timer_clearTimeout.
Qed.

Lemma one_timer_reachable r : reachable_transport r -> one_timer r.
Proof.
  induction 1 as [|a r r' _ IH Hstep]; [|by eapply one_timer_step].
  intros t Ht. by apply elem_of_empty in Ht.
Qed.

Lemma quiet_disconnect r : one_timer r -> quiet (disconnect r).
Proof.
  intros H. split; [by apply timers_disconnect_empty | apply isManualClose_disconnect].
Qed.

(** While the client does not call [connect], a quiet transport stays quiet:
    no timeout is there to fire, a close event schedules none, and [connect]
    is not entered. *)
Lemma quiet_step a r r' :
  quiet r -> a ≠ CallConnect -> step a r = Some r' ->
  quiet r' /\ connect_calls r' = connect_calls r /\ (forall t, a ≠ TimerFire t).
Proof.
  intros [Htimers Hmanual] Hne Hstep.
  destruct a; simpl in Hstep; try done.
  - (* disconnect *)
    injection Hstep as <-. split; [split|split]; try done.
    + rewrite timers_disconnect, Htimers.
      destruct (reconnectTimeout (monitorWS r)); [|done].
      apply set_eq; intros t'. rewrite elem_of_difference, elem_of_empty. tauto.
    + apply isManualClose_disconnect.
    + apply connect_calls_disconnect.
  - by simplify_eq.
  - by simplify_eq.
  - by simplify_eq.
  - by simplify_eq.
  - case_decide; by simplify_eq.
  - assert (r' = onclose (set_socket id CLOSED r)) as ->
      by (repeat case_match; by simplify_eq).
    unfold onclose; simpl. rewrite Hmanual. done.
  - case_decide; by simplify_eq.
  - case_decide; [|done]. destruct data; by simplify_eq.
  - case_decide as Ht; [|done]. rewrite Htimers in Ht.
    by apply elem_of_empty in Ht.
Qed.

Lemma quiet_run (acts : list Action) r r' :
  quiet r -> Forall (fun a => a ≠ CallConnect) acts -> run acts r = Some r' ->
  quiet r' /\ connect_calls r' = connect_calls r /\
  Forall (fun a => forall t, a ≠ TimerFire t) acts.
Proof.
  revert r. induction acts as [|a acts IH]; intros r Hq Hacts Hrun; simpl in Hrun.
  { by simplify_eq. }
  apply Forall_cons in Hacts as [Ha Hacts].
  destruct (step a r) as [r1|] eqn:Hstep; [|done].
  destruct (quiet_step _ _ _ Hq Ha Hstep) as (Hq1 & Hc1 & Hfire).
  destruct (IH _ Hq1 Hacts Hrun) as (Hq' & Hc' & Hfires).
  split; [done|]. split; [congruence|]. by constructor.
Qed.
End transport_lemmas.

Section timer_handles.
Implicit Types (r : Runtime) (a : Action) (t : timer_id).

Lemma next_timer_disconnect r : next_timer (disconnect r) = next_timer r.
Proof.
  unfold disconnect; simpl.
  destruct (reconnectTimeout (monitorWS r)); simpl;
    by destruct (ws (monitorWS r)).
Qed.

Lemma timers_disconnect_subseteq r t : t ∈ timers (disconnect r) -> t ∈ timers r.
Proof.
  rewrite timers_disconnect. destruct (reconnectTimeout (monitorWS r)); [|done].
  by intros [? _]%elem_of_difference.
Qed.

Lemma timers_scheduleReconnect r t :
  t ∈ timers (scheduleReconnect r) -> t ∈ timers r \/ t = next_timer r.
Proof.
  unfold scheduleReconnect; simpl.
  destruct (reconnectTimeout (monitorWS r)); simpl.
  - intros [[? _]%elem_of_difference | ?%elem_of_singleton]%elem_of_union; auto.
  - intros [? | ?%elem_of_singleton]%elem_of_union; auto.
Qed.

Lemma next_timer_scheduleReconnect r :
  next_timer (scheduleReconnect r) = Pos.succ (next_timer r).
Proof.
  unfold scheduleReconnect; simpl. by destruct (reconnectTimeout (monitorWS r)).
Qed.

Lemma timers_onclose r t :
  t ∈ timers (onclose r) ->
  t ∈ timers r \/ (t = next_timer r /\ (next_timer r < next_timer (onclose r))%positive).
Proof.
  unfold onclose.
  destruct (isManualClose (monitorWS (notifyConnection false r))); [by left|].
  rewrite next_timer_scheduleReconnect.
  intros [? | ->]%timers_scheduleReconnect; [by left|].
  right. simpl. split; [done | lia].
Qed.

Lemma next_timer_onclose r : (next_timer r <= next_timer (onclose r))%positive.
Proof.
  unfold onclose.
  destruct (isManualClose (monitorWS (notifyConnection false r))); [simpl; lia|].
  rewrite next_timer_scheduleReconnect. simpl. lia.
Qed.

(** A step only adds the handle that [setTimeout] hands out next, and the
    next handle never decreases. *)
Lemma timers_step a r r' t :
  step a r = Some r' ->
  (t ∈ timers r' ->
     t ∈ timers r \/ (t = next_timer r /\ (next_timer r < next_timer r')%positive)) /\
  (next_timer r <= next_timer r')%positive.
Proof.
  intros Hstep.
  assert (Hsame : forall r1, timers r1 = timers r -> next_timer r1 = next_timer r ->
            (t ∈ timers r1 ->
               t ∈ timers r \/
               (t = next_timer r /\ (next_timer r < next_timer r1)%positive)) /\
            (next_timer r <= next_timer r1)%positive).
  { intros r1 -> ->. split; [by left | lia]. }
  destruct a; simpl in Hstep.
  - injection Hstep as <-. apply Hsame; unfold connect; by case_match.
  - injection Hstep as <-. rewrite next_timer_disconnect.
    split; [|lia]. intros ?%timers_disconnect_subseteq. by left.
  - injection Hstep as <-. by apply Hsame.
  - injection Hstep as <-. by apply Hsame.
  - injection Hstep as <-. by apply Hsame.
  - injection Hstep as <-. by apply Hsame.
  - case_decide; [|done]. injection Hstep as <-. by apply Hsame.
  - assert (r' = onclose (set_socket id CLOSED r)) as ->
      by (repeat case_match; by simplify_eq).
    split; [apply (timers_onclose (set_socket id CLOSED r))
           | apply (next_timer_onclose (set_socket id CLOSED r))].
  - case_decide; [|done]. injection Hstep as <-. by apply Hsame.
  - case_decide; [|done]. injection Hstep as <-. apply Hsame; by destruct data.
  - case_decide; [|done]. injection Hstep as <-.
    assert (Ht : timers (connect (clearTimeout t0 r)) = timers r ∖ {[ t0 ]})
      by (unfold connect; by case_match).
    assert (Hn : next_timer (connect (clearTimeout t0 r)) = next_timer r)
      by (unfold connect; by case_match).
    rewrite Ht, Hn. split; [|lia].
    intros [? _]%elem_of_difference. by left.
Qed.

Lemma timers_issued_step a r r' :
  timers_issued r -> step a r = Some r' -> timers_issued r'.
Proof.
  intros H Hstep t Ht.
  destruct (timers_step a r r' t Hstep) as [Hin Hnext].
  destruct (Hin Ht) as [Hold | [-> Hlt]]; [|done].
  apply H in Hold. lia.
Qed.

Lemma timers_issued_reachable r : reachable_transport r -> timers_issued r.
Proof.
  induction 1 as [|a r r' _ IH Hstep]; [|by eapply timers_issued_step].
  intros t Ht. by apply elem_of_empty in Ht.
Qed.

(** A handle that is retired stays retired: it is never handed out again, so
    it cannot fire. *)
Lemma retired_step a r r' t :
  retired t r -> step a r = Some r' -> retired t r' /\ a ≠ TimerFire t.
Proof.
  intros [Hnot Hlt] Hstep.
  destruct (timers_step a r r' t Hstep) as [Hin Hnext].
  split; [split|].
  - intros Ht. destruct (Hin Ht) as [? | [-> _]]; [done | lia].
  - lia.
  - intros ->. simpl in Hstep. by case_decide.
Qed.

Lemma retired_run (acts : list Action) r r' t :
  retired t r -> run acts r = Some r' ->
  retired t r' /\ Forall (fun a => a ≠ TimerFire t) acts.
Proof.
  revert r. induction acts as [|a acts IH]; intros r Hret Hrun; simpl in Hrun.
  { injection Hrun as <-. by split. }
  destruct (step a r) as [r1|] eqn:Hstep; [|done].
  destruct (retired_step a r r1 t Hret Hstep) as [Hret1 Hne].
  destruct (IH r1 Hret1 Hrun) as [Hret' Hall].
  split; [done | by constructor].
Qed.

Lemma retired_disconnect r t :
  one_timer r -> timers_issued r -> t ∈ timers r -> retired t (disconnect r).
Proof.
  intros Hone Hissued Ht. split.
  - rewrite (timers_disconnect_empty r Hone). apply not_elem_of_empty.
  - rewrite next_timer_disconnect. by apply Hissued.
Qed.
End timer_handles.

Lemma run_reachable (acts : list Action) (r r' : Runtime) :
  reachable_transport r -> run acts r = Some r' -> reachable_transport r'.
Proof.
  revert r. induction acts as [|a acts IH]; intros r Hr Hrun; simpl in Hrun.
  - by injection Hrun as <-.
  - destruct (step a r) as [r1|] eqn:Hstep; [|done].
    apply (IH r1); [|done]. by apply (reachable_transport_step a r).
Qed.

(** C7. In every reachable state of the transport, [disconnect()] leaves no
    timeout pending and sets the manual-close flag.  A reconnect timeout that
    was pending when [disconnect()] was called is cancelled for good: in no
    execution that follows is it pending again, so it never fires and never
    calls [connect()].  And as long as the client does not call [connect()]
    again, no timeout fires at all, no close notification schedules a
    reconnect (no timeout becomes pending) and [connect()] is never entered. *)
Theorem disconnect_cancels_reconnect (r : Runtime) (acts : list Action) :
  reachable_transport r ->
  Forall (fun a => a ≠ CallConnect) acts ->
  timers (disconnect r) = ∅ /\
  isManualClose (monitorWS (disconnect r)) = true /\
  (forall (t : timer_id) (later : list Action) (r' : Runtime),
     t ∈ timers r ->
     run later (disconnect r) = Some r' ->
     (t ∉ timers r') /\ Forall (fun a => a ≠ TimerFire t) later) /\
  (forall r' : Runtime,
     run acts (disconnect r) = Some r' ->
     timers r' = ∅ /\
     isManualClose (monitorWS r') = true /\
     connect_calls r' = connect_calls (disconnect r) /\
     Forall (fun a => forall t, a ≠ TimerFire t) acts).
Proof.
  intros Hr Hacts.
  pose proof (one_timer_reachable r Hr) as Hone.
  pose proof (timers_issued_reachable r Hr) as Hissued.
  destruct (quiet_disconnect r Hone) as [Ht Hm].
  split; [done|]. split; [done|]. split.
  - intros t later r' Hpending Hrun.
    destruct (retired_run later (disconnect r) r' t
                (retired_disconnect r t Hone Hissued Hpending) Hrun)
      as [[Hnot _] Hfire].
    done.
  - intros r' Hrun.
    destruct (quiet_run acts (disconnect r) r' (conj Ht Hm) Hacts Hrun)
      as ([Ht' Hm'] & Hc & Hfire).
    done.
Qed.

Lemma example_runtime_reachable : reachable_transport example_runtime.
Proof.
  apply (run_reachable
           [CallOnConnection 0%nat; CallConnect; CallConnect; SocketClose 1%nat]
           initial_runtime); [apply reachable_transport_init|].
  vm_compute. reflexivity.
Qed.

Lemma disconnect_cancels_reconnect_witness :
  reachable_transport example_runtime /\
  1%positive ∈ timers example_runtime /\
  is_Some (run [SocketClose 0%nat; CallUnsubscribeConnection 0%nat]
             (disconnect example_runtime)) /\
  timers (disconnect example_runtime) = ∅ /\
  (forall (later : list Action) (r' : Runtime),
     run later (disconnect example_runtime) = Some r' ->
     (1%positive ∉ timers r') /\ Forall (fun a => a ≠ TimerFire 1%positive) later) /\
  (forall r' : Runtime,
     run [SocketClose 0%nat; CallUnsubscribeConnection 0%nat]
       (disconnect example_runtime) = Some r' ->
     timers r' = ∅ /\
     isManualClose (monitorWS r') = true /\
     connect_calls r' = connect_calls (disconnect example_runtime) /\
     Forall (fun a => forall t, a ≠ TimerFire t)
       [SocketClose 0%nat; CallUnsubscribeConnection 0%nat]).
Proof.
  assert (Hpending : 1%positive ∈ timers example_runtime)
    by (vm_compute; reflexivity).
  split; [exact example_runtime_reachable|].
  split; [exact Hpending|].
  split; [vm_compute; by eexists|].
  pose proof (disconnect_cancels_reconnect example_runtime
                [SocketClose 0%nat; CallUnsubscribeConnection 0%nat]
                example_runtime_reachable) as H.
  destruct H as (Ht & _ & Hretired & Hrun).
  - repeat constructor; discriminate.
  - split; [exact Ht|]. split; [|exact Hrun].
    intros later r'. exact (Hretired 1%positive later r' Hpending).
Defined.

(** Once the client has called [connect()] again, the close event of a socket
    left over from before does schedule a reconnect. *)
Example reconnect_after_connect_again :
  exists r' : Runtime,
    run [CallConnect; SocketClose 0%nat] (disconnect example_runtime) = Some r' /\
    timers r' = {[ 2%positive ]}.
Proof. vm_compute. eexists. split; reflexivity. Qed.

(** * Further properties of the store module *)

Section store_frames.
Implicit Types (w : World) (m : WebSocketMessage.t) (e : Event.t) (b : bool).

Lemma handleMessage_signals m w :
  connected (handleMessage m w) = connected w /\
  duration (handleMessage m w) = duration w /\
  get_connected store (handleMessage m w) = get_connected store w.
Proof.
  assert (Hev : forall es w', get_connected store (set_events store es w') =
                              get_connected store w').
  { intros es w'. unfold get_connected; simpl.
    rewrite lookup_total_alter_eq, lookup_total_alt.
    by destruct (heap w' !! store). }
  assert (Hst : forall st w', get_connected store (set_state store st w') =
                              get_connected store w').
  { intros st w'. unfold get_connected; simpl.
    rewrite lookup_total_alter_eq, lookup_total_alt.
    by destruct (heap w' !! store). }
  unfold handleMessage.
  repeat case_decide; repeat case_match; simpl;
    rewrite ?Hst, ?Hev, ?Hst, ?Hev; done.
Qed.

Lemma get_connected_set_connected b w :
  wf w -> get_connected store (set_connected store b w) = b.
Proof.
  intros [o Ho]. unfold get_connected; simpl.
  by rewrite lookup_total_alter_eq, Ho.
Qed.

Lemma handleConnection_frame b w :
  log (handleConnection b w) = log w /\
  session (handleConnection b w) = session w /\
  duration (handleConnection b w) = duration w.
Proof.
  unfold handleConnection, log, session.
  rewrite get_events_set_connected, get_state_set_connected. done.
Qed.

Lemma wf_handleConnection b w : wf w -> wf (handleConnection b w).
Proof. intros Hw. unfold handleConnection. by apply wf_set_connected. Qed.

Lemma tick_frame getTime now w :
  heap (startDurationUpdater_tick getTime now w) = heap w /\
  connected (startDurationUpdater_tick getTime now w) = connected w.
Proof. unfold startDurationUpdater_tick. by repeat case_match. Qed.

Lemma wf_reachable w : reachable w -> wf w.
Proof.
  induction 1 as [|m w _ IH|b w _ IH|getTime now w _ IH|w _ IH].
  - apply wf_initial.
  - by apply wf_handleMessage.
  - by apply wf_handleConnection.
  - unfold wf. by rewrite (proj1 (tick_frame getTime now w)).
  - by rewrite resetMonitor_heap.
Qed.
End store_frames.

(** X1. An [init] message replaces the log by the events it carries, or by the
    empty list when it carries none, whatever the log held; it replaces the
    session state when it carries one and leaves it as it was otherwise. *)
Theorem init_message_replaces_store (w : World) (m : WebSocketMessage.t) :
  wf w ->
  WebSocketMessage.type m = "init" ->
  log (handleMessage m w) = default [] (WebSocketMessage.events m) /\
  session (handleMessage m w) = default (session w) (WebSocketMessage.state m).
Proof.
  intros Hw Htype. unfold handleMessage. rewrite Htype.
  rewrite decide_True by done. unfold log, session.
  destruct (WebSocketMessage.state m) as [st|]; simpl.
  - rewrite get_events_set_state, get_events_set_events by done.
    rewrite get_state_set_state by auto using wf_set_events. done.
  - rewrite get_events_set_events by done.
    by rewrite get_state_set_events.
Qed.

Lemma init_message_replaces_store_witness :
  let w := handleEvents [example_event "coder" "start";
                         example_event "tester" "start"] initial_world in
  let m := init_message (Some [example_event "pm" "end"]) None in
  log (handleMessage m w) = [example_event "pm" "end"] /\
  session (handleMessage m w) = session w.
Proof.
  apply (init_message_replaces_store
           (handleEvents [example_event "coder" "start";
                          example_event "tester" "start"] initial_world)
           (init_message (Some [example_event "pm" "end"]) None)).
  - apply wf_handleEvents, wf_initial.
  - reflexivity.
Defined.

(** X2. A message whose type is neither [init] nor [event] (an [error]
    message, or any type the client does not know) changes nothing. *)
Theorem other_message_types_change_nothing (w : World) (m : WebSocketMessage.t) :
  WebSocketMessage.type m ≠ "init" ->
  WebSocketMessage.type m ≠ "event" ->
  handleMessage m w = w.
Proof.
  intros Hinit Hevent. unfold handleMessage.
  rewrite decide_False by done. by rewrite decide_False.
Qed.

Lemma other_message_types_change_nothing_witness :
  let m := {| WebSocketMessage.type := "error";
              WebSocketMessage.events := Some [example_event "coder" "start"];
              WebSocketMessage.state := None;
              WebSocketMessage.event := Some (example_event "coder" "start");
              WebSocketMessage.message := Some "server error" |} in
  handleMessage m initial_world = initial_world.
Proof.
  apply other_message_types_change_nothing; discriminate.
Defined.

(** X3. The [end] event of the agent that is active ends the session: all
    three of [active_agent], [active_workflow] and [started_at] become null,
    whatever workflow the [end] event names. *)
Theorem end_of_active_agent_clears_session (w : World) (e : Event.t) :
  wf w ->
  Event.action e = "end" ->
  MonitorState.active_agent (session w) = Some (Event.agent e) ->
  let st := session (handleMessage (event_message e) w) in
  MonitorState.active_agent st = None /\
  MonitorState.active_workflow st = None /\
  MonitorState.started_at st = None.
Proof.
  intros Hw Hend Hactive st. subst st.
  rewrite session_handleMessage_event by done.
  unfold updateStateFromEvent.
  rewrite decide_False by (rewrite Hend; discriminate).
  rewrite decide_True by done. by rewrite decide_True.
Qed.

Lemma end_of_active_agent_clears_session_witness :
  let w := handleMessage (event_message (example_event "coder" "start")) initial_world in
  let st := session (handleMessage (event_message (example_event "coder" "end")) w) in
  MonitorState.active_agent st = None /\
  MonitorState.active_workflow st = None /\
  MonitorState.started_at st = None.
Proof.
  apply (end_of_active_agent_clears_session
           (handleMessage (event_message (example_event "coder" "start")) initial_world)
           (example_event "coder" "end")).
  - apply wf_handleMessage, wf_initial.
  - reflexivity.
  - reflexivity.
Defined.

(** X4. An event whose action is neither [start] nor [end] (an [error], or
    any other action) leaves the active session as it is; it is still
    appended to the log. *)
Theorem other_actions_keep_session (w : World) (e : Event.t) :
  wf w ->
  Event.action e ≠ "start" ->
  Event.action e ≠ "end" ->
  let w' := handleMessage (event_message e) w in
  MonitorState.active_agent (session w') = MonitorState.active_agent (session w) /\
  MonitorState.active_workflow (session w') = MonitorState.active_workflow (session w) /\
  MonitorState.started_at (session w') = MonitorState.started_at (session w) /\
  log w' = slice (-1000) (log w ++ [e]).
Proof.
  intros Hw Hstart Hend w'. subst w'.
  rewrite log_handleMessage_event, truncate_slice by done.
  rewrite session_handleMessage_event by done.
  unfold updateStateFromEvent.
  rewrite decide_False by done. by rewrite decide_False.
Qed.

Lemma other_actions_keep_session_witness :
  let w := handleMessage (event_message (example_event "coder" "start")) initial_world in
  let e := example_event "coder" "error" in
  let w' := handleMessage (event_message e) w in
  MonitorState.active_agent (session w') = MonitorState.active_agent (session w) /\
  MonitorState.active_workflow (session w') = MonitorState.active_workflow (session w) /\
  MonitorState.started_at (session w') = MonitorState.started_at (session w) /\
  log w' = slice (-1000) (log w ++ [e]).
Proof.
  apply (other_actions_keep_session
           (handleMessage (event_message (example_event "coder" "start")) initial_world)
           (example_event "coder" "error")).
  - apply wf_handleMessage, wf_initial.
  - discriminate.
  - discriminate.
Defined.

(** X5. The two connection indicators of the store module, the signal
    [connected] and the field [store.connected], agree in every reachable
    state: [handleConnection] sets both, and nothing else writes either. *)
Theorem connected_indicators_agree (w : World) :
  reachable w -> connected w = get_connected store w.
Proof.
  induction 1 as [|m w Hr IH|b w Hr IH|getTime now w Hr IH|w Hr IH].
  - reflexivity.
  - destruct (handleMessage_signals m w) as (-> & _ & ->). done.
  - unfold handleConnection.
    rewrite get_connected_set_connected by exact (wf_reachable w Hr). done.
  - destruct (tick_frame getTime now w) as [Hh ->].
    unfold get_connected. by rewrite Hh.
  - rewrite resetMonitor_heap. exact IH.
Qed.

Lemma connected_indicators_agree_witness :
  let w := handleMessage (event_message (example_event "coder" "start"))
             (handleConnection true initial_world) in
  connected w = get_connected store w.
Proof.
  apply (connected_indicators_agree
           (handleMessage (event_message (example_event "coder" "start"))
              (handleConnection true initial_world))).
  apply reachable_message, reachable_connection, reachable_init.
Defined.

(** X6. A tick writes the duration string and nothing else.  A [started_at]
    that is the empty string counts as no session (["-"]); one that does not
    parse as a date shows ["NaNs"]; one that lies in the future (the clock of
    the client is behind) shows a negative number of seconds, never minutes
    or hours. *)
Theorem duration_tick_edge_cases (getTime : string -> option Z) (now : Z) (w : World) :
  let w' := startDurationUpdater_tick getTime now w in
  heap w' = heap w /\
  connected w' = connected w /\
  (MonitorState.started_at (session w) = Some EmptyString -> duration w' = "-") /\
  (forall s : string,
     MonitorState.started_at (session w) = Some s -> s ≠ EmptyString ->
     getTime s = None -> duration w' = "NaNs") /\
  (forall (s : string) (t : Z),
     MonitorState.started_at (session w) = Some s -> s ≠ EmptyString ->
     getTime s = Some t -> now < t ->
     (now - t) / 1000 < 0 /\
     duration w' = pretty ((now - t) / 1000) +:+ "s").
Proof.
  intros w'. subst w'.
  destruct (tick_frame getTime now w) as [Hh Hc].
  split; [done|]. split; [done|].
  unfold startDurationUpdater_tick. fold (session w).
  split; [|split].
  - intros ->. by rewrite decide_True.
  - intros s -> Hs ->. by rewrite decide_False.
  - intros s t -> Hs -> Hlt. rewrite decide_False by done. simpl.
    split; [apply Z.div_lt_upper_bound; lia|].
    apply formatDuration_seconds. lia.
Qed.

Example duration_tick_clock_behind :
  let getTime := fun _ : string => Some 1769682600000 in
  let w := handleMessage (event_message (example_event "coder" "start")) initial_world in
  duration (startDurationUpdater_tick getTime (1769682600000 - 2500) w) = "-3s" /\
  duration (startDurationUpdater_tick (fun _ => None) 1769682600000 w) = "NaNs".
Proof. by vm_compute. Qed.

(** X7. The duration string depends on the whole elapsed seconds only, and
    from one hour on it depends on the whole elapsed minutes only: the
    seconds are no longer shown. *)
Theorem formatDuration_resolution (d d' : Z) :
  (d / 1000 = d' / 1000 -> formatDuration d = formatDuration d') /\
  (3600000 <= d -> d / 60000 = d' / 60000 -> formatDuration d = formatDuration d').
Proof.
  split.
  - intros H. unfold formatDuration. by rewrite H.
  - intros Hd H.
    assert (Hd' : 3600000 <= d').
    { destruct (decide (3600000 <= d')) as [|Hn]; [done|].
      assert (d' / 60000 < 60) by (apply Z.div_lt_upper_bound; lia).
      assert (60 <= d / 60000) by (apply Z.div_le_lower_bound; lia).
      lia. }
    rewrite (formatDuration_hours d), (formatDuration_hours d') by done.
    replace (d / 3600000) with (d / 60000 / 60) by (by rewrite Z.div_div by lia).
    replace (d' / 3600000) with (d' / 60000 / 60) by (by rewrite Z.div_div by lia).
    by rewrite H.
Qed.

Example formatDuration_resolution_example :
  formatDuration (3661 * 1000) = formatDuration (3719 * 1000 + 999) /\
  formatDuration (3661 * 1000) ≠ formatDuration (3720 * 1000).
Proof. by vm_compute. Qed.

(** * The ticker *)

Section ticker_lemmas.
Implicit Types (k : Ticker) (c : TickerCall).

Lemma ticker_inv_initial : ticker_inv initial_ticker.
Proof. split; [done | by intros i]. Qed.

Lemma ticker_inv_start k : ticker_inv k -> ticker_inv (startDurationUpdater k).
Proof.
  intros [Hint Hlt]. unfold ticker_inv, startDurationUpdater.
  destruct (durationInterval k) as [i|] eqn:Hi.
  - rewrite Hi. by split.
  - simpl. split.
    + rewrite Hint. apply set_eq; intros j.
      rewrite elem_of_union, elem_of_empty. tauto.
    + intros i [= <-]. lia.
Qed.

Lemma ticker_inv_stop k : ticker_inv k -> ticker_inv (stopDurationUpdater k).
Proof.
  intros [Hint Hlt]. unfold ticker_inv, stopDurationUpdater.
  destruct (durationInterval k) as [i|] eqn:Hi.
  - simpl. split; [|done].
    rewrite Hint. apply set_eq; intros j.
    rewrite elem_of_difference, elem_of_empty. tauto.
  - rewrite Hi. by split.
Qed.

Lemma ticker_inv_calls (cs : list TickerCall) k :
  ticker_inv k -> ticker_inv (ticker_calls cs k).
Proof.
  revert k. induction cs as [|c cs IH]; intros k Hk; [done|].
  simpl. apply IH. destruct c; simpl; auto using ticker_inv_start, ticker_inv_stop.
Qed.
End ticker_lemmas.

(** X8. Whatever the sequence of calls of [startDurationUpdater] and
    [stopDurationUpdater], at most one interval is live and [durationInterval]
    holds it.  Starting twice is starting once; after stopping no interval is
    left, and stopping when nothing runs does nothing. *)
Theorem ticker_single_interval (cs : list TickerCall) :
  let k := ticker_calls cs initial_ticker in
  intervals k = match durationInterval k with
                | Some i => {[ i ]}
                | None => ∅
                end /\
  (size (intervals k) <= 1)%nat /\
  (exists i, intervals (startDurationUpdater k) = {[ i ]}) /\
  startDurationUpdater (startDurationUpdater k) = startDurationUpdater k /\
  intervals (stopDurationUpdater k) = ∅ /\
  durationInterval (stopDurationUpdater k) = None /\
  stopDurationUpdater (stopDurationUpdater k) = stopDurationUpdater k.
Proof.
  intros k.
  pose proof (ticker_inv_calls cs initial_ticker ticker_inv_initial) as Hk.
  fold k in Hk. clearbody k.
  pose proof (ticker_inv_start k Hk) as [Hstart _].
  pose proof (ticker_inv_stop k Hk) as [Hstop _].
  destruct Hk as [Hint Hlt].
  split; [done|]. split; [|split; [|split; [|split; [|split]]]].
  - rewrite Hint. destruct (durationInterval k).
    + rewrite size_singleton. lia.
    + rewrite size_empty. lia.
  - rewrite Hstart. unfold startDurationUpdater.
    destruct (durationInterval k) as [i|] eqn:Hi.
    + rewrite Hi. by eexists.
    + simpl. by eexists.
  - unfold startDurationUpdater.
    destruct (durationInterval k) as [i|] eqn:Hi; [by rewrite Hi | done].
  - rewrite Hstop. unfold stopDurationUpdater.
    destruct (durationInterval k) as [i|] eqn:Hi; [done | by rewrite Hi].
  - unfold stopDurationUpdater.
    by destruct (durationInterval k) as [i|] eqn:Hi.
  - unfold stopDurationUpdater.
    destruct (durationInterval k) as [i|] eqn:Hi; [done | by rewrite Hi].
Qed.

(** * The timeline *)

Section slice_general.
Context {A : Type}.
Implicit Types (l : list A).

Lemma slice_neg (n : nat) l :
  (0 < n)%nat -> slice (- Z.of_nat n) l = drop (length l - n) l.
Proof.
  intros Hn. unfold slice.
  destruct (Z.ltb_spec (- Z.of_nat n) 0); [|lia]. f_equal. lia.
Qed.

Lemma slice_50 l : slice (-50) l = drop (length l - 50) l.
Proof. apply (slice_neg 50). lia. Qed.

Lemma slice_50_slice_last l : slice (-50) (slice (-1000) l) = slice (-50) l.
Proof.
  rewrite !slice_50, slice_last, length_drop, drop_drop. f_equal. lia.
Qed.
End slice_general.

(** X9. The timeline shows the last 50 events of the log, in order.  After a
    stream of [event] messages handled from an empty log these are the last
    50 events of the stream: the truncation of the log at 1000 never changes
    what the timeline shows. *)
Theorem timeline_shows_last_50 (w : World) (es : list Event.t) :
  wf w -> log w = [] ->
  displayEvents (handleEvents es w) = drop (length es - 50) es /\
  length (displayEvents (handleEvents es w)) = (length es `min` 50)%nat.
Proof.
  intros Hw Hnil.
  assert (H : displayEvents (handleEvents es w) = drop (length es - 50) es).
  { unfold displayEvents. fold (log (handleEvents es w)).
    destruct es as [|e es]; [by rewrite handleEvents_nil, Hnil|].
    rewrite log_handleEvents by done. rewrite Hnil. simpl app.
    by rewrite slice_50_slice_last, slice_50. }
  split; [done|]. rewrite H, length_drop. lia.
Qed.

Lemma timeline_shows_last_50_witness :
  wf initial_world /\ log initial_world = [] /\
  displayEvents (handleEvents (replicate 1500 (example_event "coder" "start"))
                   initial_world) =
    drop (length (replicate 1500 (example_event "coder" "start")) - 50)
      (replicate 1500 (example_event "coder" "start")).
Proof.
  split; [exact wf_initial|]. split; [reflexivity|].
  exact (proj1 (timeline_shows_last_50 initial_world
                  (replicate 1500 (example_event "coder" "start"))
                  wf_initial eq_refl)).
Defined.

(** * Further properties of the transport *)

Section notification_lemmas.
Implicit Types (r : Runtime) (a : Action) (h : handler_id).

Lemma notified_disconnect r : notified (disconnect r) = notified r.
Proof.
  unfold disconnect; simpl.
  destruct (reconnectTimeout (monitorWS r)); simpl;
    by destruct (ws (monitorWS r)).
Qed.

Lemma handlers_disconnect r :
  messageHandlers (monitorWS (disconnect r)) = messageHandlers (monitorWS r) /\
  connectionHandlers (monitorWS (disconnect r)) = connectionHandlers (monitorWS r).
Proof.
  unfold disconnect; simpl.
  destruct (reconnectTimeout (monitorWS r)); simpl;
    by destruct (ws (monitorWS r)).
Qed.

Lemma notified_connect r : notified (connect r) = notified r.
Proof. unfold connect. by case_match. Qed.

Lemma handlers_connect r :
  messageHandlers (monitorWS (connect r)) = messageHandlers (monitorWS r) /\
  connectionHandlers (monitorWS (connect r)) = connectionHandlers (monitorWS r).
Proof. unfold connect. by case_match. Qed.

Lemma notified_scheduleReconnect r : notified (scheduleReconnect r) = notified r.
Proof. unfold scheduleReconnect; simpl. by destruct (reconnectTimeout (monitorWS r)). Qed.

Lemma handlers_scheduleReconnect r :
  messageHandlers (monitorWS (scheduleReconnect r)) = messageHandlers (monitorWS r) /\
  connectionHandlers (monitorWS (scheduleReconnect r)) = connectionHandlers (monitorWS r).
Proof. unfold scheduleReconnect; simpl. by destruct (reconnectTimeout (monitorWS r)). Qed.

Lemma notified_onclose r :
  notified (onclose r) =
    notified r ++ ((fun h => NotifyConnection h false) <$> connectionHandlers (monitorWS r)).
Proof.
  unfold onclose.
  destruct (isManualClose (monitorWS (notifyConnection false r))); [done|].
  by rewrite notified_scheduleReconnect.
Qed.

Lemma handlers_onclose r :
  messageHandlers (monitorWS (onclose r)) = messageHandlers (monitorWS r) /\
  connectionHandlers (monitorWS (onclose r)) = connectionHandlers (monitorWS r).
Proof.
  unfold onclose.
  destruct (isManualClose (monitorWS (notifyConnection false r))); [done|].
  apply (handlers_scheduleReconnect (notifyConnection false r)).
Qed.

(** What one step adds to the record of calls. *)
Lemma step_notified a r r' :
  step a r = Some r' ->
  notified r' =
    notified r ++ notifications_of (messageHandlers (monitorWS r))
                    (connectionHandlers (monitorWS r)) a.
Proof.
  intros Hstep. destruct a; simpl in Hstep; simpl notifications_of.
  - injection Hstep as <-. by rewrite notified_connect, app_nil_r.
  - injection Hstep as <-. by rewrite notified_disconnect, app_nil_r.
  - injection Hstep as <-. simpl. by rewrite app_nil_r.
  - injection Hstep as <-. simpl. by rewrite app_nil_r.
  - injection Hstep as <-. simpl. by rewrite app_nil_r.
  - injection Hstep as <-. simpl. by rewrite app_nil_r.
  - case_decide; [|done]. by injection Hstep as <-.
  - assert (r' = onclose (set_socket id CLOSED r)) as ->
      by (repeat case_match; by simplify_eq).
    by rewrite notified_onclose.
  - case_decide; [|done]. injection Hstep as <-. by rewrite app_nil_r.
  - case_decide; [|done]. injection Hstep as <-.
    destruct data; simpl; [done | by rewrite app_nil_r].
  - case_decide; [|done]. injection Hstep as <-.
    by rewrite notified_connect, app_nil_r.
Qed.

(** Only the four subscription calls change the lists of handlers. *)
Lemma step_handlers a r r' :
  step a r = Some r' -> is_subscription a = false ->
  messageHandlers (monitorWS r') = messageHandlers (monitorWS r) /\
  connectionHandlers (monitorWS r') = connectionHandlers (monitorWS r).
Proof.
  intros Hstep Hsub. destruct a; simpl in Hstep; try done.
  - injection Hstep as <-. apply handlers_connect.
  - injection Hstep as <-. apply handlers_disconnect.
  - case_decide; [|done]. by injection Hstep as <-.
  - assert (r' = onclose (set_socket id CLOSED r)) as ->
      by (repeat case_match; by simplify_eq).
    apply (handlers_onclose (set_socket id CLOSED r)).
  - case_decide; [|done]. by injection Hstep as <-.
  - case_decide; [|done]. injection Hstep as <-. by destruct data.
  - case_decide; [|done]. injection Hstep as <-.
    apply (handlers_connect (clearTimeout t r)).
Qed.

Lemma run_notified (acts : list Action) r r' :
  Forall (fun a => is_subscription a = false) acts ->
  run acts r = Some r' ->
  messageHandlers (monitorWS r') = messageHandlers (monitorWS r) /\
  connectionHandlers (monitorWS r') = connectionHandlers (monitorWS r) /\
  notified r' =
    notified r ++
    concat (notifications_of (messageHandlers (monitorWS r))
              (connectionHandlers (monitorWS r)) <$> acts).
Proof.
  revert r. induction acts as [|a acts IH]; intros r Hacts Hrun; simpl in Hrun.
  { injection Hrun as <-. simpl. by rewrite app_nil_r. }
  apply Forall_cons in Hacts as [Ha Hacts].
  destruct (step a r) as [r1|] eqn:Hstep; [|done].
  destruct (step_handlers a r r1 Hstep Ha) as [Hm Hc].
  destruct (IH r1 Hacts Hrun) as (Hm' & Hc' & Hn).
  rewrite Hm, Hc in *.
  split; [done|]. split; [done|].
  rewrite Hn, (step_notified a r r1 Hstep). simpl. by rewrite app_assoc.
Qed.


Lemma remove_first_not_in h (l : list handler_id) :
  h ∉ l -> remove_first h l = l.
Proof.
  induction l as [|y l IH]; simpl; [done|].
  intros [Hne Hl]%not_elem_of_cons. rewrite decide_False by done.
  by rewrite IH.
Qed.

Lemma remove_first_snoc h (l : list handler_id) :
  h ∉ l -> remove_first h (l ++ [h]) = l.
Proof.
  induction l as [|y l IH]; simpl.
  - intros _. by rewrite decide_True.
  - intros [Hne Hl]%not_elem_of_cons. rewrite decide_False by done.
    by rewrite IH.
Qed.

End notification_lemmas.

(** X10. In every reachable state of the transport at most one reconnect
    timeout is pending, and when one is pending [reconnectTimeout] holds its
    handle: closes never stack timers. *)
Theorem at_most_one_pending_reconnect (r : Runtime) :
  reachable_transport r ->
  (size (timers r) <= 1)%nat /\
  (forall t, t ∈ timers r -> reconnectTimeout (monitorWS r) = Some t).
Proof.
  intros Hr. pose proof (one_timer_reachable r Hr) as Hone.
  split; [|exact Hone].
  destruct (reconnectTimeout (monitorWS r)) as [t0|] eqn:Ht0.
  - rewrite <- (size_singleton (C:=gset timer_id) t0).
    apply subseteq_size. intros t Ht.
    apply Hone in Ht. rewrite Ht0 in Ht. injection Ht as ->.
    by apply elem_of_singleton.
  - assert (timers r = ∅) as ->.
    { apply set_eq; intros t. rewrite elem_of_empty. split; [|done].
      intros Ht. apply Hone in Ht. by rewrite Ht0 in Ht. }
    rewrite size_empty. lia.
Qed.

Lemma at_most_one_pending_reconnect_witness :
  reachable_transport example_runtime /\
  (size (timers example_runtime) <= 1)%nat /\
  (forall t, t ∈ timers example_runtime ->
             reconnectTimeout (monitorWS example_runtime) = Some t).
Proof.
  split; [exact example_runtime_reachable|].
  exact (at_most_one_pending_reconnect example_runtime example_runtime_reachable).
Defined.

(** X11. Subscribing a handler that is not registered and calling the
    function that [onMessage] (or [onConnection]) returned brings the
    transport back to the state it was in; calling that function once more,
    or for a handler that is not registered, does nothing. *)
Theorem subscribe_unsubscribe_round_trip (r : Runtime) (h : handler_id) :
  (h ∉ messageHandlers (monitorWS r) ->
     unsubscribeMessage h (onMessage h r) = r /\
     unsubscribeMessage h r = r) /\
  (h ∉ connectionHandlers (monitorWS r) ->
     unsubscribeConnection h (onConnection h r) = r /\
     unsubscribeConnection h r = r).
Proof.
  destruct r as [[w mh ch rt mc] ss ts nt ns cc].
  unfold unsubscribeMessage, onMessage, unsubscribeConnection, onConnection,
    with_monitorWS; simpl.
  split; intros Hh.
  - by rewrite remove_first_snoc, remove_first_not_in.
  - by rewrite remove_first_snoc, remove_first_not_in.
Qed.



Section unsubscribed.
Implicit Types (r : Runtime) (a : Action) (h : handler_id).


End unsubscribed.





(** X15. [connect()] called while the current socket is still connecting
    creates a second socket and makes it the current one; the first is not
    closed and keeps its callbacks.  When the first then opens, the
    connection handlers are told [true] although [isConnected] is false. *)
Theorem connect_while_connecting_abandons_socket (r : Runtime) (id : socket_id) :
  ws (monitorWS r) = Some id ->
  sockets r !! id = Some CONNECTING ->
  ws (monitorWS (connect r)) = Some (length (sockets r)) /\
  sockets (connect r) = sockets r ++ [CONNECTING] /\
  sockets (connect r) !! id = Some CONNECTING /\
  exists r2 : Runtime,
    step (SocketOpen id) (connect r) = Some r2 /\
    notified r2 =
      notified r ++
      ((fun h => NotifyConnection h true) <$> connectionHandlers (monitorWS r)) /\
    isConnected r2 = false.
Proof.
  intros Hws Hid.
  assert (Hlt : (id < length (sockets r))%nat) by (by eapply lookup_lt_Some).
  assert (Hnot : isConnected r = false).
  { unfold isConnected. rewrite Hws, Hid. by apply bool_decide_eq_false. }
  assert (Hc : connect r =
    {| monitorWS := {| ws := Some (length (sockets r));
                       messageHandlers := messageHandlers (monitorWS r);
                       connectionHandlers := connectionHandlers (monitorWS r);
                       reconnectTimeout := reconnectTimeout (monitorWS r);
                       isManualClose := false |};
       sockets := sockets r ++ [CONNECTING];
       timers := timers r; next_timer := next_timer r; notified := notified r;
       connect_calls := S (connect_calls r) |}).
  { unfold connect. change (isConnected _) with (isConnected r). by rewrite Hnot. }
  rewrite Hc; simpl.
  assert (Hid' : (sockets r ++ [CONNECTING]) !! id = Some CONNECTING)
    by (by rewrite lookup_app_l).
  split; [done|]. split; [done|]. split; [done|].
  rewrite decide_True by done. eexists. split; [reflexivity|].
  split; [reflexivity|].
  unfold isConnected; simpl. apply bool_decide_eq_false.
  rewrite list_lookup_insert_ne by lia.
  rewrite lookup_app_r by lia. rewrite Nat.sub_diag. simpl. discriminate.
Qed.

Lemma connect_while_connecting_abandons_socket_witness :
  let r := connect (onConnection 1%nat initial_runtime) in
  ws (monitorWS r) = Some 0%nat /\
  sockets r !! 0%nat = Some CONNECTING /\
  ws (monitorWS (connect r)) = Some (length (sockets r)) /\
  sockets (connect r) = sockets r ++ [CONNECTING].
Proof.
  assert (Hws : ws (monitorWS (connect (onConnection 1%nat initial_runtime))) = Some 0%nat)
    by (vm_compute; reflexivity).
  assert (Hid : sockets (connect (onConnection 1%nat initial_runtime)) !! 0%nat =
                Some CONNECTING) by (vm_compute; reflexivity).
  split; [exact Hws|]. split; [exact Hid|].
  pose proof (connect_while_connecting_abandons_socket
                (connect (onConnection 1%nat initial_runtime)) 0%nat Hws Hid)
    as (H1 & H2 & _).
  split; [exact H1 | exact H2].
Defined.

(** * The store behind the transport *)

Section wiring.
Implicit Types (w : World) (m : WebSocketMessage.t) (e : Event.t)
  (r : Runtime) (a : Action).

(** The handler reads the fields [type], [events], [state] and [event] of a
    message, and the log and the session state of the store. *)
Lemma handleMessage_event_general m e w :
  WebSocketMessage.type m = "event" -> WebSocketMessage.event m = Some e ->
  handleMessage m w = handleMessage (event_message e) w.
Proof.
  intros Ht He. unfold handleMessage. rewrite Ht, He. reflexivity.
Qed.

Lemma handleMessage_event_none m w :
  WebSocketMessage.type m = "event" -> WebSocketMessage.event m = None ->
  handleMessage m w = w.
Proof. intros Ht He. unfold handleMessage. rewrite Ht, He. reflexivity. Qed.

Lemma handleMessage_other m w :
  WebSocketMessage.type m ≠ "init" -> WebSocketMessage.type m ≠ "event" ->
  handleMessage m w = w.
Proof.
  intros Hi He. unfold handleMessage.
  rewrite decide_False by done. by rewrite decide_False.
Qed.

Lemma updateStateFromEvent_ext w w' st e :
  get_events store w = get_events store w' ->
  updateStateFromEvent w st e = updateStateFromEvent w' st e.
Proof. intros H. unfold updateStateFromEvent. by rewrite H. Qed.

Lemma same_store_refl w : wf w -> same_store w w.
Proof. by repeat split. Qed.

Lemma same_store_handleMessage m w w' :
  same_store w w' -> same_store (handleMessage m w) (handleMessage m w').
Proof.
  intros (Hw & Hw' & Hlog & Hses).
  split; [by apply wf_handleMessage|]. split; [by apply wf_handleMessage|].
  destruct (decide (WebSocketMessage.type m = "init")) as [Hinit|Hinit].
  - unfold handleMessage. rewrite !decide_True by done. unfold log, session.
    destruct (WebSocketMessage.state m) as [st|].
    + rewrite !get_events_set_state, !get_events_set_events by done.
      rewrite !get_state_set_state by auto using wf_set_events. done.
    + rewrite !get_events_set_events by done.
      rewrite !get_state_set_events. done.
  - destruct (decide (WebSocketMessage.type m = "event")) as [Hevent|Hevent].
    + destruct (WebSocketMessage.event m) as [e|] eqn:He.
      * rewrite !(handleMessage_event_general m e) by done.
        rewrite !log_handleMessage_event, !session_handleMessage_event by done.
        rewrite Hlog, Hses. split; [done|].
        apply updateStateFromEvent_ext.
        by rewrite !get_events_set_events.
      * by rewrite !(handleMessage_event_none m) by done.
    + by rewrite !(handleMessage_other m) by done.
Qed.

Lemma same_store_handleConnection b w w' :
  same_store w w' -> same_store (handleConnection b w) w'.
Proof.
  intros (Hw & Hw' & Hlog & Hses).
  destruct (handleConnection_frame b w) as (Hl & Hs & _).
  split; [by apply wf_handleConnection|]. split; [done|].
  by rewrite Hl, Hs.
Qed.

Lemma deliver_one_action a w w' :
  same_store w w' ->
  same_store
    (foldl (fun w n => deliver n w) w
       (notifications_of [handleMessage_id] [handleConnection_id] a))
    (handleMessages (received [a]) w') /\
  connected
    (foldl (fun w n => deliver n w) w
       (notifications_of [handleMessage_id] [handleConnection_id] a)) =
    last_connection (connected w) [a].
Proof.
  intros Hs. destruct a; simpl; try done.
  - split; [by apply same_store_handleConnection | done].
  - split; [by apply same_store_handleConnection | done].
  - destruct data as [m|]; simpl; [|done].
    split; [by apply same_store_handleMessage|].
    apply (handleMessage_signals m w).
Qed.

Lemma received_cons a (acts : list Action) :
  received (a :: acts) = received [a] ++ received acts.
Proof. unfold received. simpl. by destruct a as [| | | | | | | | |? [?|]|]. Qed.

Lemma deliver_actions (acts : list Action) w w' :
  same_store w w' ->
  same_store
    (foldl (fun w n => deliver n w) w
       (concat (notifications_of [handleMessage_id] [handleConnection_id] <$> acts)))
    (handleMessages (received acts) w') /\
  connected
    (foldl (fun w n => deliver n w) w
       (concat (notifications_of [handleMessage_id] [handleConnection_id] <$> acts))) =
    last_connection (connected w) acts.
Proof.
  revert w w'. induction acts as [|a acts IH]; intros w w' Hs; [done|].
  rewrite fmap_cons, concat_cons, foldl_app, received_cons.
  unfold handleMessages. rewrite foldl_app. fold (handleMessages (received [a]) w').
  destruct (deliver_one_action a w w' Hs) as [Hs1 Hc1].
  destruct (IH _ _ Hs1) as [Hs2 Hc2].
  split; [exact Hs2|]. rewrite Hc2, Hc1. done.
Qed.

Lemma initializeMonitor_initial :
  messageHandlers (monitorWS (transport (initializeMonitor initial_app))) =
    [handleMessage_id] /\
  connectionHandlers (monitorWS (transport (initializeMonitor initial_app))) =
    [handleConnection_id] /\
  notified (transport (initializeMonitor initial_app)) = [].
Proof. by vm_compute. Qed.
End wiring.

(** X16. After [initializeMonitor()] on the freshly loaded modules, and as
    long as nobody else subscribes or unsubscribes, the store holds what the
    message handler makes of the decoded frames in the order in which the
    sockets delivered them, frames that fail to decode being skipped; and its
    [connected] signal is the most recent open or close event of any socket
    of the transport, [false] before the first. *)
Theorem store_follows_transport (acts : list Action) (r' : Runtime) :
  Forall (fun a => is_subscription a = false) acts ->
  run acts (transport (initializeMonitor initial_app)) = Some r' ->
  log (store_after r') = log (handleMessages (received acts) initial_world) /\
  session (store_after r') = session (handleMessages (received acts) initial_world) /\
  connected (store_after r') = last_connection false acts.
Proof.
  intros Hacts Hrun.
  destruct initializeMonitor_initial as (Hm & Hc & Hn).
  destruct (run_notified acts _ r' Hacts Hrun) as (_ & _ & Hnot).
  rewrite Hm, Hc, Hn in Hnot. simpl in Hnot.
  unfold store_after. rewrite Hnot.
  destruct (deliver_actions acts initial_world initial_world
              (same_store_refl _ wf_initial)) as [(_ & _ & Hl & Hs) Hconn].
  done.
Qed.

Lemma store_follows_transport_witness :
  let m1 := event_message (example_event "coder" "start") in
  let m2 := event_message (example_event "coder" "end") in
  let acts := [SocketOpen 0%nat; SocketMessage 0%nat (Some m1);
               SocketMessage 0%nat None; SocketMessage 0%nat (Some m2);
               SocketClose 0%nat] in
  exists r' : Runtime,
    run acts (transport (initializeMonitor initial_app)) = Some r' /\
    log (store_after r') = log (handleMessages [m1; m2] initial_world) /\
    session (store_after r') = session (handleMessages [m1; m2] initial_world) /\
    connected (store_after r') = false.
Proof.
  eexists. split; [vm_compute; reflexivity|].
  refine (store_follows_transport
            [SocketOpen 0%nat;
             SocketMessage 0%nat (Some (event_message (example_event "coder" "start")));
             SocketMessage 0%nat None;
             SocketMessage 0%nat (Some (event_message (example_event "coder" "end")));
             SocketClose 0%nat] _ _ _).
  - repeat constructor.
  - vm_compute. reflexivity.
Defined.

Section teardown.
Implicit Types (r : Runtime) (a : Action).

Lemma ws_disconnect r : ws (monitorWS (disconnect r)) = None.
Proof.
  unfold disconnect; simpl.
  destruct (reconnectTimeout (monitorWS r)); simpl;
    by destruct (ws (monitorWS r)).
Qed.

Lemma notifications_of_no_handlers (acts : list Action) :
  concat (notifications_of [] [] <$> acts) = [].
Proof.
  induction acts as [|a acts IH]; [done|].
  rewrite fmap_cons, concat_cons, IH.
  by destruct a as [| | | | | | | | |? [?|]|].
Qed.

Lemma initializeMonitor_reachable :
  reachable_transport (transport (initializeMonitor initial_app)).
Proof.
  apply (run_reachable
           [CallOnMessage handleMessage_id; CallOnConnection handleConnection_id;
            CallConnect] initial_runtime); [apply reachable_transport_init|].
  reflexivity.
Qed.
End teardown.

(** X17. The cleanup function returned by [initializeMonitor()], called at
    any moment of a session in which nobody else changed the subscriptions,
    leaves nothing running: both handlers are unsubscribed, no reconnect
    timeout is pending, the transport holds no socket, and no interval of the
    duration updater is live.  From then on, until the client connects or
    subscribes again, no handler is called, no timeout becomes pending and
    [connect()] is not entered, whatever the sockets that are still closing
    report. *)
Theorem cleanup_leaves_nothing_running
    (acts : list Action) (r' : Runtime) (cs : list TickerCall) :
  Forall (fun a => is_subscription a = false) acts ->
  run acts (transport (initializeMonitor initial_app)) = Some r' ->
  let a' := cleanup {| transport := r';
                       ticker := ticker_calls cs (ticker (initializeMonitor initial_app)) |} in
  messageHandlers (monitorWS (transport a')) = [] /\
  connectionHandlers (monitorWS (transport a')) = [] /\
  timers (transport a') = ∅ /\
  ws (monitorWS (transport a')) = None /\
  isConnected (transport a') = false /\
  intervals (ticker a') = ∅ /\
  forall (later : list Action) (r'' : Runtime),
    Forall (fun a => a ≠ CallConnect) later ->
    Forall (fun a => is_subscription a = false) later ->
    run later (transport a') = Some r'' ->
    notified r'' = notified r' /\
    timers r'' = ∅ /\
    connect_calls r'' = connect_calls r'.
Proof.
  intros Hacts Hrun a'.
  destruct initializeMonitor_initial as (Hm0 & Hc0 & _).
  destruct (run_notified acts _ r' Hacts Hrun) as (Hm & Hc & _).
  rewrite Hm0 in Hm. rewrite Hc0 in Hc.
  pose proof (run_reachable acts _ r' initializeMonitor_reachable Hrun) as Hr'.
  set (ru := unsubscribeConnection handleConnection_id
               (unsubscribeMessage handleMessage_id r')).
  assert (Hru : reachable_transport ru).
  { apply (run_reachable
             [CallUnsubscribeMessage handleMessage_id;
              CallUnsubscribeConnection handleConnection_id] r' ru Hr').
    reflexivity. }
  assert (Hmu : messageHandlers (monitorWS ru) = []).
  { subst ru; simpl. rewrite Hm. reflexivity. }
  assert (Hcu : connectionHandlers (monitorWS ru) = []).
  { subst ru; simpl. rewrite Hc. reflexivity. }
  change (transport a') with (disconnect ru).
  destruct (handlers_disconnect ru) as [Hmd Hcd].
  destruct (quiet_disconnect ru (one_timer_reachable ru Hru)) as [Ht Hmc].
  split; [by rewrite Hmd|]. split; [by rewrite Hcd|]. split; [done|].
  split; [apply ws_disconnect|].
  split; [unfold isConnected; by rewrite ws_disconnect|].
  split.
  - change (ticker a') with
      (stopDurationUpdater (ticker_calls cs (ticker (initializeMonitor initial_app)))).
    assert (Hk : ticker_inv (ticker_calls cs (ticker (initializeMonitor initial_app)))).
    { apply ticker_inv_calls. simpl. apply ticker_inv_start, ticker_inv_initial. }
    destruct (ticker_inv_stop _ Hk) as [Hint _].
    rewrite Hint. unfold stopDurationUpdater.
    destruct (durationInterval (ticker_calls cs _)) as [i|] eqn:Hi; [done|].
    by rewrite Hi.
  - intros later r'' Hnoconnect Hnosub Hlater.
    destruct (quiet_run later (disconnect ru) r'' (conj Ht Hmc) Hnoconnect Hlater)
      as ([Ht'' _] & Hcc & _).
    destruct (run_notified later (disconnect ru) r'' Hnosub Hlater) as (_ & _ & Hn).
    rewrite Hmd, Hcd, Hmu, Hcu, notifications_of_no_handlers, app_nil_r in Hn.
    rewrite notified_disconnect in Hn.
    rewrite connect_calls_disconnect in Hcc.
    done.
Qed.

Lemma cleanup_leaves_nothing_running_witness :
  exists r' : Runtime,
    run [SocketOpen 0%nat] (transport (initializeMonitor initial_app)) = Some r' /\
    let a' := cleanup {| transport := r';
                         ticker := ticker_calls []
                                     (ticker (initializeMonitor initial_app)) |} in
    sockets (transport a') = [CLOSING] /\
    messageHandlers (monitorWS (transport a')) = [] /\
    connectionHandlers (monitorWS (transport a')) = [] /\
    timers (transport a') = ∅ /\
    intervals (ticker a') = ∅ /\
    exists r'' : Runtime,
      run [SocketClose 0%nat] (transport a') = Some r'' /\
      notified r'' = notified r' /\ timers r'' = ∅.
Proof.
  eexists. split; [vm_compute; reflexivity|].
  match goal with
  | |- let a' := cleanup {| transport := ?r; ticker := _ |} in _ =>
      pose proof (cleanup_leaves_nothing_running [SocketOpen 0%nat] r []) as H
  end.
  destruct H as (Hm & Hc & Ht & _ & _ & Hi & Hlater).
  - repeat constructor.
  - vm_compute. reflexivity.
  - intros a'. split; [vm_compute; reflexivity|].
    split; [exact Hm|]. split; [exact Hc|]. split; [exact Ht|]. split; [exact Hi|].
    eexists. split; [vm_compute; reflexivity|].
    edestruct (Hlater [SocketClose 0%nat]) as (Hn & Ht'' & _).
    + repeat constructor; discriminate.
    + repeat constructor.
    + vm_compute. reflexivity.
    + split; [exact Hn | exact Ht''].
Defined.

(** * Streams of events from any state of the store *)

(** X18. From any state of the store, also one whose log an [init] message
    has made longer than 1000, a stream of at least one [event] message
    leaves in the log the last 1000 elements of the old log followed by the
    stream; in particular the log then holds at most 1000 events and ends
    with the last event of the stream. *)
Theorem log_after_events_from_any_state (w : World) (es : list Event.t) :
  wf w -> es ≠ [] ->
  log (handleEvents es w) = drop (length (log w ++ es) - 1000) (log w ++ es) /\
  Z.of_nat (length (log (handleEvents es w))) <= 1000 /\
  last (log (handleEvents es w)) = last es.
Proof.
  intros Hw Hes.
  rewrite log_handleEvents by done. split; [apply slice_last|].
  split; [rewrite length_slice_last; lia|].
  destruct (exists_last Hes) as (es' & e & ->).
  rewrite app_assoc, slice_last, drop_app_le, !last_snoc; [done|].
  rewrite !length_app; simpl. lia.
Qed.

Lemma log_after_events_from_any_state_witness :
  let w := handleMessage
             (init_message (Some (replicate 1200 (example_event "pm" "start"))) None)
             initial_world in
  let es := [example_event "coder" "start"] in
  wf w /\
  log (handleEvents es w) = drop (length (log w ++ es) - 1000) (log w ++ es) /\
  Z.of_nat (length (log (handleEvents es w))) <= 1000 /\
  last (log (handleEvents es w)) = last es.
Proof.
  assert (Hw : wf (handleMessage
                     (init_message (Some (replicate 1200 (example_event "pm" "start"))) None)
                     initial_world)) by apply wf_handleMessage, wf_initial.
  split; [exact Hw|].
  refine (log_after_events_from_any_state _ [example_event "coder" "start"] Hw _).
  discriminate.
Defined.

(** X19. From any state of the store, after a stream of [event] messages
    [active_agent] is the agent of the most recent [start] event of the
    stream unless an [end] event of that agent follows it; and when the
    stream has no [start] event, it is the agent that was active before
    unless the stream holds an [end] event of that agent. *)
Theorem active_agent_after_events_from_any_state (w : World) (es : list Event.t) :
  wf w ->
  MonitorState.active_agent (session (handleEvents es w)) =
    match most_recent_start es with
    | Some (s, later) =>
        if existsb (is_end_of (Event.agent s)) later then None
        else Some (Event.agent s)
    | None =>
        match MonitorState.active_agent (session w) with
        | Some x => if existsb (is_end_of x) es then None else Some x
        | None => None
        end
    end.
Proof.
  intros Hw. rewrite active_agent_handleEvents by done. apply foldl_next_agent.
Qed.

Lemma active_agent_after_events_from_any_state_witness :
  let snapshot := {| MonitorState.active_agent := Some "tester";
                     MonitorState.active_workflow := None;
                     MonitorState.started_at := Some "2026-01-29T10:00:00Z";
                     MonitorState.event_count := 7 |} in
  let w := handleMessage (init_message None (Some snapshot)) initial_world in
  MonitorState.active_agent
    (session (handleEvents [example_event "coder" "end";
                            example_event "tester" "error"] w)) = Some "tester" /\
  MonitorState.active_agent
    (session (handleEvents [example_event "coder" "end";
                            example_event "tester" "end"] w)) = None.
Proof.
  set (snapshot := {| MonitorState.active_agent := Some "tester";
                      MonitorState.active_workflow := None;
                      MonitorState.started_at := Some "2026-01-29T10:00:00Z";
                      MonitorState.event_count := 7 |}).
  assert (Hw : wf (handleMessage (init_message None (Some snapshot)) initial_world))
    by apply wf_handleMessage, wf_initial.
  split.
  - exact (active_agent_after_events_from_any_state _
             [example_event "coder" "end"; example_event "tester" "error"] Hw).
  - exact (active_agent_after_events_from_any_state _
             [example_event "coder" "end"; example_event "tester" "end"] Hw).
Defined.

(** X20. Over [event] messages handled from the freshly loaded store the
    three session fields stay consistent: either all three are null, or all
    three were written by one and the same [start] event of the stream
    ([active_workflow] being that event's workflow, which may be null).  So
    [started_at] is null exactly when no agent is active. *)
Theorem session_fields_come_from_one_start (es : list Event.t) :
  let st := session (handleEvents es initial_world) in
  ((MonitorState.active_agent st = None /\
    MonitorState.active_workflow st = None /\
    MonitorState.started_at st = None) \/
   (exists s : Event.t,
      s ∈ es /\ Event.action s = "start" /\
      MonitorState.active_agent st = Some (Event.agent s) /\
      MonitorState.active_workflow st = Event.workflow s /\
      MonitorState.started_at st = Some (Event.timestamp s))) /\
  (MonitorState.started_at st = None <-> MonitorState.active_agent st = None).
Proof.
  intros st. subst st.
  assert (H :
    (MonitorState.active_agent (session (handleEvents es initial_world)) = None /\
     MonitorState.active_workflow (session (handleEvents es initial_world)) = None /\
     MonitorState.started_at (session (handleEvents es initial_world)) = None) \/
    (exists s : Event.t,
       s ∈ es /\ Event.action s = "start" /\
       MonitorState.active_agent (session (handleEvents es initial_world)) =
         Some (Event.agent s) /\
       MonitorState.active_workflow (session (handleEvents es initial_world)) =
         Event.workflow s /\
       MonitorState.started_at (session (handleEvents es initial_world)) =
         Some (Event.timestamp s))).
  { induction es as [|e es IH] using rev_ind; [by left|].
    rewrite handleEvents_snoc.
    rewrite session_handleMessage_event by apply wf_handleEvents, wf_initial.
    unfold updateStateFromEvent.
    destruct (decide (Event.action e = "start")) as [Hstart|Hstart].
    - right. exists e. simpl. split; [apply elem_of_app; right; by left|]. done.
    - destruct (decide (Event.action e = "end")) as [Hend|Hend];
        [destruct (decide (MonitorState.active_agent
                             (session (handleEvents es initial_world)) =
                           Some (Event.agent e))) as [Hact|Hact]|].
      + left. done.
      + simpl. destruct IH as [IH|(s & Hin & IH)]; [by left|].
        right. exists s. split; [apply elem_of_app; by left | done].
      + simpl. destruct IH as [IH|(s & Hin & IH)]; [by left|].
        right. exists s. split; [apply elem_of_app; by left | done]. }
  split; [exact H|].
  destruct H as [(Ha & _ & Hs)|(s & _ & _ & Ha & _ & Hs)]; rewrite Ha, Hs; done.
Qed.
